(** * Color patches with cult leaders: a model of [color_patches/model.py]

    The lattice model of [ColorCell] and [ColorPatches] is embedded as
    executable definitions over an explicit simulation state.  Python
    values that are either an [int] or [None] are [option Z]; exceptions
    are the [Raise] results of [result]; the two random generators the
    code draws from ([self.random] of the model and the module-level
    [random]) are two streams with a cursor each. *)

From Stdlib Require Import ZArith QArith Qminmax.
From stdpp Require Import base option list sorting gmap.

Local Open Scope Z_scope.

(** ** Python-level plumbing *)

Inductive exn := IndexError.

Inductive result (A : Type) :=
  | Ok (a : A)
  | Raise (e : exn).
Arguments Ok {A} a.
Arguments Raise {A} e.

Global Instance result_ret : MRet result := λ A a, Ok a.
Global Instance result_bind : MBind result := λ A B f m,
  match m with
  | Ok a => f a
  | Raise e => Raise e
  end.

(** [bool(v)] for a value that is an [int] or [None]. *)
Definition truthy (v : option Z) : bool :=
  match v with
  | Some z => negb (z =? 0)
  | None => false
  end.

(** [range(a, b)] *)
Definition range (a b : Z) : list Z := seqZ a (b - a).

(** [a < b] on the rationals, as a boolean. *)
Definition Qlt_bool (a b : Q) : bool := negb (Qle_bool b a).

(** ** [collections.Counter]

    A [Counter] is a [dict]: keys in order of first insertion, each with
    its number of occurrences. *)

Abbreviation Counter := (list (option Z * nat)).

Fixpoint counter_incr (k : option Z) (c : Counter) : Counter :=
  match c with
  | [] => [(k, 1%nat)]
  | (k', n) :: c' =>
      if decide (k = k') then (k', S n) :: c' else (k', n) :: counter_incr k c'
  end.

(** [Counter(iterable)] *)
Definition Counter_of (l : list (option Z)) : Counter :=
  foldl (λ c k, counter_incr k c) [] l.

(** [sorted(items, key=itemgetter(1), reverse=True)] is a stable sort: an
    item goes after the items with a strictly larger count and before the
    later items with the same count. *)
Fixpoint insert_by_count (e : option Z * nat) (l : Counter) : Counter :=
  match l with
  | [] => [e]
  | e' :: l' =>
      if (e.2 <? e'.2)%nat then e' :: insert_by_count e l' else e :: e' :: l'
  end.

(** [Counter.most_common()] *)
Definition most_common (c : Counter) : Counter := foldr insert_by_count [] c.

(** ** The grid container *)

Abbreviation Coordinate := (Z * Z)%type.

Module Mesa.

(** Modelled from the spec: the grid container (mesa's [SingleGrid], built
    with [torus=False]) is an external collaborator that is not under
    src/.  It is a bounded, non-wrapping lattice that enumerates its
    coordinates and the neighbourhood of a coordinate within a radius,
    measured as Chebyshev distance ([moore]) or as Manhattan distance, with
    or without the centre.  The arguments are those of the library call the
    source makes, [iter_neighbors(pos, moore, include_center=False,
    radius=1)]. *)
Definition coord_iter (width height : Z) : list Coordinate :=
  x ← range 0 width; y ← range 0 height; [(x, y)].

(** Modelled from the spec: the neighbourhood enumeration of the grid
    container (not under src/), clipped at the border of the lattice and
    listed by ascending first, then second coordinate. *)
Definition get_neighborhood (width height : Z) (pos : Coordinate)
    (moore include_center : bool) (radius : Z) : list Coordinate :=
  let x_range := range (Z.max 0 (pos.1 - radius)) (Z.min width (pos.1 + radius + 1)) in
  let y_range := range (Z.max 0 (pos.2 - radius)) (Z.min height (pos.2 + radius + 1)) in
  let neighborhood :=
    new_x ← x_range; new_y ← y_range;
    if negb moore && bool_decide (radius < Z.abs (new_x - pos.1) + Z.abs (new_y - pos.2))
    then [] else [(new_x, new_y)] in
  if include_center then neighborhood
  else filter (λ p, p ≠ pos) neighborhood.

End Mesa.

(** ** Cells and the model state *)

Definition OPINIONS : list Z :=
  [0; 1; 2; 3; 4; 5; 6; 7; 8; 9; 10; 11; 12; 13; 14; 15; 16].

Record ColorCell := mkColorCell {
  unique_id : Z;
  _row : Z;
  _col : Z;
  _state : option Z;
  _next_state : option Z;
  _is_cult_leader : bool;
}.

(** [ColorCell.__init__] *)
Definition ColorCell_init (pos : Coordinate) (uid : Z) (initial_state : option Z) : ColorCell :=
  {| unique_id := uid; _row := pos.1; _col := pos.2;
     _state := initial_state; _next_state := None; _is_cult_leader := false |}.

Definition get_col (c : ColorCell) : Z := _col c.
Definition get_row (c : ColorCell) : Z := _row c.
Definition get_state (c : ColorCell) : option Z := _state c.
Definition get_is_cult_leader (c : ColorCell) : bool := _is_cult_leader c.

Definition with_next_state (v : option Z) (c : ColorCell) : ColorCell :=
  {| unique_id := unique_id c; _row := _row c; _col := _col c;
     _state := _state c; _next_state := v; _is_cult_leader := _is_cult_leader c |}.

Definition with_state (v : option Z) (c : ColorCell) : ColorCell :=
  {| unique_id := unique_id c; _row := _row c; _col := _col c;
     _state := v; _next_state := _next_state c; _is_cult_leader := _is_cult_leader c |}.

Definition with_is_cult_leader (b : bool) (c : ColorCell) : ColorCell :=
  {| unique_id := unique_id c; _row := _row c; _col := _col c;
     _state := _state c; _next_state := _next_state c; _is_cult_leader := b |}.

(** The model.  Cell objects live in [_grid], keyed by the coordinate they
    were placed at; [agents] is the agent registry, the references to the
    cells in order of creation.  [model_draws] and [module_draws] count the
    values drawn so far from [self.random] and from the module-level
    [random]. *)
Record ColorPatches := mkColorPatches {
  width : Z;
  height : Z;
  _grid : gmap Coordinate ColorCell;
  agents : list Coordinate;
  _steps : Z;
  model_draws : nat;
  module_draws : nat;
}.

Definition with_grid (g : gmap Coordinate ColorCell) (s : ColorPatches) : ColorPatches :=
  {| width := width s; height := height s; _grid := g; agents := agents s;
     _steps := _steps s; model_draws := model_draws s; module_draws := module_draws s |}.

Definition with_steps (n : Z) (s : ColorPatches) : ColorPatches :=
  {| width := width s; height := height s; _grid := _grid s; agents := agents s;
     _steps := n; model_draws := model_draws s; module_draws := module_draws s |}.

Definition with_model_draws (n : nat) (s : ColorPatches) : ColorPatches :=
  {| width := width s; height := height s; _grid := _grid s; agents := agents s;
     _steps := _steps s; model_draws := n; module_draws := module_draws s |}.

Definition with_module_draws (n : nat) (s : ColorPatches) : ColorPatches :=
  {| width := width s; height := height s; _grid := _grid s; agents := agents s;
     _steps := _steps s; model_draws := model_draws s; module_draws := n |}.

(** [self.model.grid.iter_neighbors(pos, moore, include_center, radius)]:
    the cells at the coordinates of the neighbourhood, empty coordinates
    skipped. *)
Definition iter_neighbors (s : ColorPatches) (pos : Coordinate)
    (moore include_center : bool) (radius : Z) : list ColorCell :=
  omap (λ p, _grid s !! p)
       (Mesa.get_neighborhood (width s) (height s) pos moore include_center radius).

(** ** The opinion update rule *)

(** Lines 56-62: the entries of [polled_opinions] whose count is that of
    the first entry, and those whose count is that of the last one. *)
Definition tied_opinions (polled_opinions : Counter) : Counter :=
  match head polled_opinions with
  | Some first => filter (λ neighbor, neighbor.2 = first.2) polled_opinions
  | None => []
  end.

Definition low_tied_opinions (polled_opinions : Counter) : Counter :=
  match last polled_opinions with
  | Some lowest => filter (λ neighbor, neighbor.2 = lowest.2) polled_opinions
  | None => []
  end.

(** Lines 64-72, one iteration: [dist] is lowered when a nearer leader is
    met, [cult_leader_opinion] is overwritten at every leader. *)
Definition check_cultist (self : ColorCell) (acc : option Z * Z) (neighbor : ColorCell)
    : option Z * Z :=
  if get_is_cult_leader neighbor then
    let new_dist :=
      Z.abs (_row self - get_row neighbor) + Z.abs (_col self - get_col neighbor) in
    (get_state neighbor, if decide (new_dist < acc.2) then new_dist else acc.2)
  else acc.

Definition check_cultists (self : ColorCell) (l : list ColorCell) : option Z * Z :=
  foldl (check_cultist self) (None, 10000) l.

(** [0.9 - dist * 0.2], the decimal constants read as the rationals they
    denote. *)
Definition influence (dist : Z) : Q := ((9 # 10) - inject_Z dist * (2 # 10))%Q.

(** The random source: the values produced by the model's generator
    [self.random] and by the module-level generator [random], in the order
    they are drawn. *)
Class RandomSource := {
  model_random : nat → nat;
  module_random : nat → Q;
}.

Section Model.

Context {rs : RandomSource}.

(** [random.random()] *)
Definition random_random (s : ColorPatches) : Q * ColorPatches :=
  (module_random (module_draws s), with_module_draws (S (module_draws s)) s).

(** [self.random.choice(seq)] *)
Definition random_choice {A : Type} (seq : list A) (s : ColorPatches)
    : result (A * ColorPatches) :=
  match head seq with
  | None => Raise IndexError
  | Some d =>
      Ok (nth (model_random (model_draws s) mod length seq)%nat seq d,
          with_model_draws (S (model_draws s)) s)
  end.

(** [self.random.randrange(start, stop)] *)
Definition random_randrange (start stop : Z) (s : ColorPatches) : Z * ColorPatches :=
  (start + Z.of_nat (model_random (model_draws s)) `mod` (stop - start),
   with_model_draws (S (model_draws s)) s).

(** Lines 74-79: the value assigned to [self._next_state].  The first
    draw is made only when [cult_leader_opinion] is truthy. *)
Definition choose_opinion (cult_leader_opinion : option Z) (dist : Z)
    (tied low_tied : Counter) (s : ColorPatches) : result (option Z * ColorPatches) :=
  let '(led, s1) :=
    if truthy cult_leader_opinion then
      let '(u, s1) := random_random s in (Qlt_bool u (influence dist), s1)
    else (false, s) in
  if led then Ok (cult_leader_opinion, s1)
  else
    let '(u, s2) := random_random s1 in
    if Qlt_bool u (1 # 10) then
      '(neighbor, s3) ← random_choice low_tied s2; Ok (neighbor.1, s3)
    else
      '(neighbor, s3) ← random_choice tied s2; Ok (neighbor.1, s3).

(** [ColorCell.determine_opinion], called on the cell [self] stored at
    [ref]. *)
Definition determine_opinion (ref : Coordinate) (self : ColorCell) (s : ColorPatches)
    : result ColorPatches :=
  let _cultist_influence := 4 in
  let _neighbor_iter := iter_neighbors s (_row self, _col self) true false 1 in
  let _check_cultist_iter :=
    iter_neighbors s (_row self, _col self) false false _cultist_influence in
  let neighbors_opinion := Counter_of (get_state <$> _neighbor_iter) in
  let polled_opinions := most_common neighbors_opinion in
  let tied := tied_opinions polled_opinions in
  let low_tied := low_tied_opinions polled_opinions in
  let '(cult_leader_opinion, dist) := check_cultists self _check_cultist_iter in
  '(next, s') ← choose_opinion cult_leader_opinion dist tied low_tied s;
  Ok (with_grid (<[ref := with_next_state next self]> (_grid s')) s').

(** [ColorCell.assume_opinion] *)
Definition assume_opinion (ref : Coordinate) (self : ColorCell) (s : ColorPatches)
    : result ColorPatches :=
  if negb (_is_cult_leader self) then
    Ok (with_grid (<[ref := with_state (_next_state self) self]> (_grid s)) s)
  else Ok s.

(** [self.agents.do(method)]: the method is called on every registered
    agent in turn, each call seeing the effects of the calls before it; a
    reference whose agent is gone is skipped. *)
Definition call (method : Coordinate → ColorCell → ColorPatches → result ColorPatches)
    (ref : Coordinate) (s : ColorPatches) : result ColorPatches :=
  match _grid s !! ref with
  | Some self => method ref self s
  | None => Ok s
  end.

Fixpoint do_each (method : Coordinate → ColorCell → ColorPatches → result ColorPatches)
    (refs : list Coordinate) (s : ColorPatches) : result ColorPatches :=
  match refs with
  | [] => Ok s
  | ref :: rest => s' ← call method ref s; do_each method rest s'
  end.

Definition agents_do (method : Coordinate → ColorCell → ColorPatches → result ColorPatches)
    (s : ColorPatches) : result ColorPatches :=
  do_each method (agents s) s.

(** [ColorPatches.manipulate_random_cell] *)
Definition manipulate_random_cell (s : ColorPatches) : result ColorPatches :=
  '(random_position, s1) ← random_choice (Mesa.coord_iter (width s) (height s)) s;
  match _grid s1 !! random_position with
  | None => Raise IndexError
  | Some agent =>
      let new_opinion := last OPINIONS in
      Ok (with_grid
            (<[random_position := with_is_cult_leader true (with_state new_opinion agent)]>
               (_grid s1)) s1)
  end.

(** [ColorPatches.step] *)
Definition step (s : ColorPatches) : result ColorPatches :=
  s1 ← agents_do determine_opinion s;
  s2 ← agents_do assume_opinion s1;
  let s3 := with_steps (_steps s2 + 1) s2 in
  if decide (_steps s3 `mod` 100 = 0) then manipulate_random_cell s3 else Ok s3.

(** The loop of [ColorPatches.__init__]: a cell is created with a drawn
    opinion and placed, for every coordinate of the grid. *)
Fixpoint place_cells (coords : list Coordinate) (s : ColorPatches) : ColorPatches :=
  match coords with
  | [] => s
  | (row, col) :: rest =>
      let '(k, s1) := random_randrange 0 16 s in
      let cell := ColorCell_init (row, col) (row + col * row) (OPINIONS !! Z.to_nat k) in
      place_cells rest
        {| width := width s1; height := height s1;
           _grid := <[(row, col) := cell]> (_grid s1);
           agents := agents s1 ++ [(row, col)];
           _steps := _steps s1; model_draws := model_draws s1;
           module_draws := module_draws s1 |}
  end.

(** The model as [mesa.Model.__init__] and the empty grid leave it. *)
Definition empty_model (w h : Z) : ColorPatches :=
  {| width := w; height := h; _grid := ∅; agents := [];
     _steps := 0; model_draws := 0; module_draws := 0 |}.

(** The grid filled with cells, before the first step. *)
Definition populate (w h : Z) : ColorPatches :=
  place_cells (Mesa.coord_iter w h) (empty_model w h).

(** [ColorPatches.__init__] *)
Definition ColorPatches_init (w h : Z) : result ColorPatches :=
  step (populate w h).

End Model.

(** ** The vocabulary of the properties *)

(** The part of a cell that [determine_opinion] reads: everything but the
    pending opinion. *)
Definition committed (c : ColorCell) : Z * Z * Z * option Z * bool :=
  (unique_id c, _row c, _col c, _state c, _is_cult_leader c).

(** Two states that differ at most in the draw cursors. *)
Definition same_model (s s' : ColorPatches) : Prop :=
  width s' = width s ∧ height s' = height s ∧ _grid s' = _grid s ∧
  agents s' = agents s ∧ _steps s' = _steps s.

(** Two states with the same lattice, the same committed cell data and the
    same draw cursors; pending opinions may differ. *)
Definition same_snapshot (s s' : ColorPatches) : Prop :=
  width s' = width s ∧ height s' = height s ∧
  committed <$> _grid s' = committed <$> _grid s ∧
  model_draws s' = model_draws s ∧ module_draws s' = module_draws s.

(** The pre-step state [s0] with the draw cursors of [s]. *)
Definition rewind (s0 s : ColorPatches) : ColorPatches :=
  with_model_draws (model_draws s) (with_module_draws (module_draws s) s0).

(** What the commit phase does to one cell. *)
Definition commit (c : ColorCell) : ColorCell :=
  if negb (_is_cult_leader c) then with_state (_next_state c) c else c.

(** The cell the perturbation designates. *)
Definition designate (agent : ColorCell) : ColorCell :=
  with_is_cult_leader true (with_state (last OPINIONS) agent).

(** How one cell can differ after a whole step: its pending opinion is
    rewritten, then possibly committed, then possibly the cell is
    designated a leader. *)
Definition evolves (c c' : ColorCell) : Prop :=
  ∃ c1, committed c1 = committed c ∧
        (c' = c1 ∨ c' = commit c1 ∨ c' = designate c1 ∨ c' = designate (commit c1)).

(** Every registered agent is the cell placed at its coordinate of the
    grid, the registry lists the coordinates in the order the grid
    enumerates them, and a cell records the coordinate it is placed at. *)
Definition wf (s : ColorPatches) : Prop :=
  agents s = Mesa.coord_iter (width s) (height s) ∧
  dom (_grid s) = list_to_set (agents s) ∧
  map_Forall (λ p c, (_row c, _col c) = p) (_grid s).

Global Instance wf_dec s : Decision (wf s).
Proof. unfold wf. apply _. Defined.

(** Every cult leader holds the last opinion of [OPINIONS]. *)
Definition leaders_hold_last (s : ColorPatches) : Prop :=
  map_Forall (λ _ c, _is_cult_leader c = true → _state c = Some 16) (_grid s).

Global Instance leaders_hold_last_dec s : Decision (leaders_hold_last s).
Proof. unfold leaders_hold_last. apply _. Defined.

(** The states in which [step] is called or which it returns: the grid as
    [__init__] fills it, and every state a returning [step] leaves. *)
Inductive reachable {rs : RandomSource} : ColorPatches → Prop :=
  | reachable_populate w h : reachable (populate w h)
  | reachable_step s s' : reachable s → step s = Ok s' → reachable s'.

Definition chebyshev (p q : Coordinate) : Z :=
  Z.max (Z.abs (p.1 - q.1)) (Z.abs (p.2 - q.2)).

Definition manhattan (p q : Coordinate) : Z :=
  Z.abs (p.1 - q.1) + Z.abs (p.2 - q.2).

(** The cells at Chebyshev distance exactly one from [ref]: the up to
    eight cells adjacent to it horizontally, vertically and diagonally. *)
Definition moore_neighbors (s : ColorPatches) (ref : Coordinate) : list ColorCell :=
  omap (λ q, _grid s !! q) (filter (λ q, chebyshev ref q = 1) (agents s)).

(** [c[k]]: the count of a key, zero for a missing key. *)
Fixpoint counter_get (c : Counter) (k : option Z) : nat :=
  match c with
  | [] => 0
  | (k', n) :: c' => if decide (k = k') then n else counter_get c' k
  end.

(** The distance line 68 computes between a cell and a scanned cell. *)
Definition cell_distance (self neighbor : ColorCell) : Z :=
  Z.abs (_row self - get_row neighbor) + Z.abs (_col self - get_col neighbor).

(** The two lists a choice is made from are those of the tally of the
    Moore neighbours. *)
Definition tie_lists (s : ColorPatches) (self : ColorCell) : Counter * Counter :=
  let polled_opinions :=
    most_common (Counter_of (get_state <$> iter_neighbors s (_row self, _col self) true false 1)) in
  (tied_opinions polled_opinions, low_tied_opinions polled_opinions).


(** [n] steps in a row. *)
Fixpoint run {rs : RandomSource} (n : nat) (s : ColorPatches) : result ColorPatches :=
  match n with
  | O => Ok s
  | S n' => s' ← step s; run n' s'
  end.

Definition get_Ok (r : result ColorPatches) (d : ColorPatches) : ColorPatches :=
  match r with
  | Ok s => s
  | Raise _ => d
  end.

(** A random source to run the model on. *)
Definition sample_source : RandomSource :=
  {| model_random := λ n, (7 * n + 3)%nat;
     module_random := λ n, (Z.of_nat (n mod 10) # 10)%Q |}.

(** A source whose model generator makes every initial opinion 5. *)
Definition constant_source : RandomSource :=
  {| model_random := λ _, 5%nat; module_random := λ _, (1 # 2)%Q |}.

(** Two sources with one and the same model generator [self.random],
    whose first four values are 5, 7, 7 and 2, and different module-level
    generators. *)
Definition seeded_source (u : Q) : RandomSource :=
  {| model_random := λ n, nth n [5; 7; 7; 2]%nat 0%nat;
     module_random := λ _, u |}.

(** A grid of two cells between two steps, the first one a cult leader
    whose last pending opinion was 5. *)
Definition the_leader : ColorCell := mkColorCell 0 0 0 (Some 16) (Some 5) true.

Definition leader_and_follower : ColorPatches :=
  {| width := 2; height := 1;
     _grid := {[ (0, 0) := the_leader;
                 (1, 0) := mkColorCell 1 1 0 (Some 3) (Some 3) false ]};
     agents := [(0, 0); (1, 0)];
     _steps := 100; model_draws := 0; module_draws := 0 |}.

(** The two-by-two model on [sample_source], as [__init__] fills it and
    after a hundred steps, when the first leader has been designated. *)
Definition two_by_two : ColorPatches := populate (rs := sample_source) 2 2.

Definition two_by_two_after_100 : ColorPatches :=
  get_Ok (run (rs := sample_source) 100 two_by_two) two_by_two.

Definition designated_leader : ColorCell := mkColorCell 2 1 1 (Some 16) (Some 8) true.

(** Two random sources that yield the same values, one by one, from both
    generators. *)
Definition same_draws (rs1 rs2 : RandomSource) : Prop :=
  (∀ n, model_random (RandomSource := rs1) n = model_random (RandomSource := rs2) n) ∧
  (∀ n, module_random (RandomSource := rs1) n = module_random (RandomSource := rs2) n).

(** [l.count(k)] *)
Definition count_of (k : option Z) (l : list (option Z)) : nat :=
  length (filter (λ x, x = k) l).

(** The order [most_common] lists the entries in: counts do not grow. *)
Definition count_ge (a b : option Z * nat) : Prop := (b.2 ≤ a.2)%nat.

(** No cell of the model is a cult leader. *)
Definition no_leaders (s : ColorPatches) : Prop :=
  map_Forall (λ _ c, _is_cult_leader c = false) (_grid s).

Global Instance no_leaders_dec s : Decision (no_leaders s).
Proof. unfold no_leaders. apply _. Defined.

(** [next] is the current opinion of a cell other than the one at [ref]:
    of a Moore neighbour, or of a cult leader within Manhattan distance
    4. *)
Definition opinion_source (s : ColorPatches) (ref : Coordinate) (next : option Z) : Prop :=
  ∃ q n, _grid s !! q = Some n ∧ _state n = next ∧ q ≠ ref ∧
         (chebyshev ref q = 1 ∨ (_is_cult_leader n = true ∧ manhattan ref q ≤ 4)).

(** The coordinates of the cult leaders. *)
Definition leaders (s : ColorPatches) : gset Coordinate :=
  dom (filter (λ pc, _is_cult_leader pc.2 = true) (_grid s)).

(** The two-by-two model after its first step and after 99 steps, and the
    three-by-three model whose cells all start with opinion 5. *)
Definition two_by_two_after_1 : ColorPatches :=
  get_Ok (step (rs := sample_source) two_by_two) two_by_two.

Definition two_by_two_after_99 : ColorPatches :=
  get_Ok (run (rs := sample_source) 99 two_by_two) two_by_two.

Definition all_fives : ColorPatches := populate (rs := constant_source) 3 3.

(** The cell at a coordinate of a concrete model. *)
Definition cell_at (s : ColorPatches) (p : Coordinate) : ColorCell :=
  default the_leader (_grid s !! p).

(** ** What a call reads and what it writes *)


Lemma committed_with_next_state v c : committed (with_next_state v c) = committed c.
Proof. done. Qed.

Lemma same_model_refl s : same_model s s.
Proof. by repeat split. Qed.

Lemma same_model_trans s1 s2 s3 : same_model s1 s2 → same_model s2 s3 → same_model s1 s3.
Proof. unfold same_model. intros (?&?&?&?&?) (?&?&?&?&?). repeat split; congruence. Qed.

Section Frames.

Context {rs : RandomSource}.

Lemma random_choice_Ok {A} (seq : list A) s a s' :
  random_choice seq s = Ok (a, s') →
  a ∈ seq ∧ s' = with_model_draws (S (model_draws s)) s.
Proof.
  unfold random_choice. destruct (head seq) as [d|] eqn:Hd; [|done].
  intros [= <- <-]. split; [|done].
  apply list_elem_of_In, nth_In, Nat.mod_upper_bound.
  by destruct seq.
Qed.

Lemma random_choice_nonempty {A} (seq : list A) s :
  seq ≠ [] → ∃ a, random_choice seq s = Ok (a, with_model_draws (S (model_draws s)) s).
Proof. destruct seq; [done|]. intros _. eexists. reflexivity. Qed.

(** [choose_opinion] only moves the draw cursors, forwards, and always
    draws from the module-level generator. *)
Lemma choose_opinion_frame clo dist tied low s next s' :
  choose_opinion clo dist tied low s = Ok (next, s') →
  same_model s s' ∧ (model_draws s ≤ model_draws s')%nat ∧
  (module_draws s < module_draws s')%nat.
Proof.
  unfold choose_opinion, random_random.
  destruct (truthy clo); [destruct (Qlt_bool _ (influence dist))|].
  - intros [= <- <-]. repeat split; simpl; lia.
  - simpl. destruct (Qlt_bool _ _).
    + destruct (random_choice low _) as [[nb s3]|] eqn:E; [|done].
      simpl. intros [= <- <-]. apply random_choice_Ok in E as [_ ->].
      repeat split; simpl; lia.
    + destruct (random_choice tied _) as [[nb s3]|] eqn:E; [|done].
      simpl. intros [= <- <-]. apply random_choice_Ok in E as [_ ->].
      repeat split; simpl; lia.
  - destruct (Qlt_bool _ _).
    + destruct (random_choice low _) as [[nb s3]|] eqn:E; [|done].
      simpl. intros [= <- <-]. apply random_choice_Ok in E as [_ ->].
      repeat split; simpl; lia.
    + destruct (random_choice tied _) as [[nb s3]|] eqn:E; [|done].
      simpl. intros [= <- <-]. apply random_choice_Ok in E as [_ ->].
      repeat split; simpl; lia.
Qed.

(** A call of [determine_opinion] stores a pending opinion in the calling
    cell and changes nothing else in the model but the draw cursors. *)
Lemma determine_opinion_writes ref self s s' :
  determine_opinion ref self s = Ok s' →
  ∃ next,
    _grid s' = <[ref := with_next_state next self]> (_grid s) ∧
    width s' = width s ∧ height s' = height s ∧ agents s' = agents s ∧
    _steps s' = _steps s ∧
    (model_draws s ≤ model_draws s')%nat ∧ (module_draws s < module_draws s')%nat.
Proof.
  unfold determine_opinion.
  destruct (check_cultists self _) as [clo dist].
  destruct (choose_opinion _ _ _ _ s) as [[next s1]|] eqn:E; [|done].
  simpl. intros [= <-]. exists next.
  apply choose_opinion_frame in E as ((?&?&Hg&?&?)&?&?).
  simpl. rewrite Hg. done.
Qed.

Lemma bind_Ok {A B} (m : result A) (f : A → result B) b :
  m ≫= f = Ok b ↔ ∃ a, m = Ok a ∧ f a = Ok b.
Proof.
  destruct m as [a|e]; simpl.
  - split; [eauto | by intros (? & [= ->] & ?)].
  - split; [done | by intros (? & ? & ?)].
Qed.

Lemma do_each_app method l1 l2 s :
  do_each method (l1 ++ l2) s = do_each method l1 s ≫= do_each method l2.
Proof.
  revert s. induction l1 as [|ref l1 IH]; intros s; [done|].
  simpl. destruct (call method ref s) as [s'|e]; simpl; [apply IH | done].
Qed.

Lemma omap_fmap_lookup {A B} (f : A → B) (g : gmap Coordinate A) (l : list Coordinate) :
  f <$> omap (λ p, g !! p) l = omap (λ p, (f <$> g) !! p) l.
Proof.
  induction l as [|p l IH]; [done|].
  csimpl. rewrite lookup_fmap. destruct (g !! p); csimpl; by rewrite IH.
Qed.

Lemma iter_neighbors_snapshot s1 s2 pos moore ic radius :
  width s2 = width s1 → height s2 = height s1 →
  committed <$> _grid s2 = committed <$> _grid s1 →
  committed <$> iter_neighbors s2 pos moore ic radius
  = committed <$> iter_neighbors s1 pos moore ic radius.
Proof.
  intros Hw Hh Hg. unfold iter_neighbors.
  by rewrite !omap_fmap_lookup, Hw, Hh, Hg.
Qed.

Lemma get_state_committed (l : list ColorCell) :
  get_state <$> l = (λ v, v.1.2) <$> (committed <$> l).
Proof. by rewrite <- list_fmap_compose. Qed.

Lemma check_cultists_committed self1 self2 l1 l2 :
  committed self1 = committed self2 → committed <$> l1 = committed <$> l2 →
  check_cultists self1 l1 = check_cultists self2 l2.
Proof.
  intros Hs. unfold check_cultists. generalize (@None Z, 10000).
  revert l2. induction l1 as [|n1 l1 IH]; intros [|n2 l2] acc Hl; try done.
  rewrite !fmap_cons in Hl. apply (inj2 cons) in Hl as [Hn Hl]. simpl.
  rewrite (IH l2 _ Hl). f_equal.
  unfold check_cultist, get_is_cult_leader, get_state, get_row, get_col.
  destruct self1, self2, n1, n2. unfold committed in Hs, Hn. by simplify_eq/=.
Qed.

Lemma choose_opinion_cursors clo dist tied low s1 s2 next s1' :
  model_draws s2 = model_draws s1 → module_draws s2 = module_draws s1 →
  choose_opinion clo dist tied low s1 = Ok (next, s1') →
  ∃ s2', choose_opinion clo dist tied low s2 = Ok (next, s2') ∧
         model_draws s2' = model_draws s1' ∧ module_draws s2' = module_draws s1'.
Proof.
  intros Hm Hg. unfold choose_opinion, random_random, random_choice.
  rewrite Hg.
  destruct (truthy clo); [destruct (Qlt_bool _ (influence dist))|]; simpl; rewrite ?Hg, ?Hm.
  - intros [= <- <-]. eexists. split; [done|]. simpl. auto.
  - destruct (Qlt_bool _ _).
    + destruct (head low); [|done]. simpl. intros [= <- <-].
      eexists. split; [done|]. simpl. auto.
    + destruct (head tied); [|done]. simpl. intros [= <- <-].
      eexists. split; [done|]. simpl. auto.
  - destruct (Qlt_bool _ _).
    + destruct (head low); [|done]. simpl. intros [= <- <-].
      eexists. split; [done|]. simpl. auto.
    + destruct (head tied); [|done]. simpl. intros [= <- <-].
      eexists. split; [done|]. simpl. auto.
Qed.

(** The outcome of [determine_opinion] depends on the model only through
    the lattice, the committed cell data and the draw cursors. *)
Lemma determine_opinion_snapshot ref self1 self2 s1 s2 s1' :
  same_snapshot s1 s2 → committed self1 = committed self2 →
  determine_opinion ref self1 s1 = Ok s1' →
  ∃ next s2',
    determine_opinion ref self2 s2 = Ok s2' ∧
    _grid s1' = <[ref := with_next_state next self1]> (_grid s1) ∧
    _grid s2' = <[ref := with_next_state next self2]> (_grid s2) ∧
    model_draws s2' = model_draws s1' ∧ module_draws s2' = module_draws s1'.
Proof.
  intros (Hw & Hh & Hg & Hm & Hd) Hs. unfold determine_opinion.
  assert (_row self2 = _row self1 ∧ _col self2 = _col self1) as [-> ->].
  { unfold committed in Hs. by simplify_eq. }
  rewrite !get_state_committed.
  rewrite !(iter_neighbors_snapshot s1 s2) by done.
  rewrite (check_cultists_committed self2 self1 _ (iter_neighbors s1 (_row self1, _col self1) false false 4))
    by (done || by apply iter_neighbors_snapshot).
  destruct (check_cultists self1 _) as [clo dist].
  destruct (choose_opinion _ _ _ _ s1) as [[next s1a]|] eqn:E; [|done].
  simpl. intros [= <-].
  destruct (choose_opinion_cursors _ _ _ _ s1 s2 _ _ Hm Hd E) as (s2a & E2 & ? & ?).
  rewrite E2. simpl. exists next. eexists. split; [done|].
  apply choose_opinion_frame in E as ((?&?&Hg1&?&?)&?&?).
  apply choose_opinion_frame in E2 as ((?&?&Hg2&?&?)&?&?).
  simpl. by rewrite Hg1, Hg2.
Qed.

(** The determine phase, over any list of agents: the lattice and every
    committed cell datum are left as they were. *)
Lemma determine_phase_committed refs s s' :
  do_each determine_opinion refs s = Ok s' →
  width s' = width s ∧ height s' = height s ∧ agents s' = agents s ∧
  _steps s' = _steps s ∧ committed <$> _grid s' = committed <$> _grid s.
Proof.
  revert s. induction refs as [|ref refs IH]; intros s; simpl.
  - by intros [= <-].
  - intros (s1 & Hc & Hr)%bind_Ok. apply IH in Hr as (-> & -> & -> & -> & ->).
    unfold call in Hc. destruct (_grid s !! ref) as [self|] eqn:Hself; [|by simplify_eq].
    apply determine_opinion_writes in Hc as (next & -> & -> & -> & -> & -> & _).
    repeat split. rewrite fmap_insert, committed_with_next_state.
    apply insert_id. by rewrite lookup_fmap, Hself.
Qed.

Lemma determine_phase_lookup refs s s' p :
  do_each determine_opinion refs s = Ok s' →
  committed <$> (_grid s' !! p) = committed <$> (_grid s !! p).
Proof.
  intros (_ & _ & _ & _ & Hg)%determine_phase_committed.
  by rewrite <- !lookup_fmap, Hg.
Qed.

Lemma commit_idemp c : commit (commit c) = commit c.
Proof. unfold commit. by destruct c as [? ? ? ? ? []]. Qed.

Lemma with_grid_id s : with_grid (_grid s) s = s.
Proof. by destruct s. Qed.

Lemma assume_opinion_commit ref self s :
  _grid s !! ref = Some self →
  assume_opinion ref self s = Ok (with_grid (<[ref := commit self]> (_grid s)) s).
Proof.
  intros Hself. unfold assume_opinion, commit.
  destruct (negb (_is_cult_leader self)); [done|].
  by rewrite insert_id, with_grid_id.
Qed.

(** The commit phase never raises; it commits the pending opinion of the
    cells it visits and moves no draw cursor. *)
Lemma assume_phase refs s :
  ∃ s', do_each assume_opinion refs s = Ok s' ∧
    width s' = width s ∧ height s' = height s ∧ agents s' = agents s ∧
    _steps s' = _steps s ∧ model_draws s' = model_draws s ∧
    module_draws s' = module_draws s ∧
    ∀ p, _grid s' !! p
         = if decide (p ∈ refs) then commit <$> (_grid s !! p) else _grid s !! p.
Proof.
  revert s. induction refs as [|ref refs IH]; intros s.
  { exists s. repeat split. }
  simpl. unfold call. destruct (_grid s !! ref) as [self|] eqn:Hself.
  - rewrite (assume_opinion_commit _ _ _ Hself). simpl.
    destruct (IH (with_grid (<[ref := commit self]> (_grid s)) s))
      as (s' & -> & Hw & Hh & Ha & Hst & Hm & Hd & Hg).
    exists s'. split; [done|]. repeat split; try done. intros p.
    rewrite Hg. simpl. destruct (decide (p = ref)) as [->|Hne].
    + rewrite lookup_insert_eq, Hself, (decide_True _ _ (list_elem_of_here _ _)).
      case_decide; simpl; by rewrite ?commit_idemp.
    + rewrite lookup_insert_ne by done.
      destruct (decide (p ∈ refs)) as [Hin|Hnin].
      * by rewrite decide_True by by apply list_elem_of_further.
      * rewrite decide_False; [done|]. by intros [?|?]%elem_of_cons.
  - simpl. destruct (IH s) as (s' & -> & Hw & Hh & Ha & Hst & Hm & Hd & Hg).
    exists s'. split; [done|]. repeat split; try done. intros p.
    rewrite Hg. destruct (decide (p = ref)) as [->|Hne].
    + rewrite Hself. by repeat case_decide.
    + destruct (decide (p ∈ refs)) as [Hin|Hnin].
      * by rewrite decide_True by by apply list_elem_of_further.
      * rewrite decide_False; [done|]. by intros [?|?]%elem_of_cons.
Qed.

Lemma manipulate_random_cell_Ok s s' :
  manipulate_random_cell s = Ok s' →
  ∃ pos agent,
    pos ∈ Mesa.coord_iter (width s) (height s) ∧ _grid s !! pos = Some agent ∧
    _grid s' = <[pos := designate agent]> (_grid s) ∧
    width s' = width s ∧ height s' = height s ∧ agents s' = agents s ∧
    _steps s' = _steps s ∧ model_draws s' = S (model_draws s) ∧
    module_draws s' = module_draws s.
Proof.
  unfold manipulate_random_cell.
  destruct (random_choice _ s) as [[pos s1]|] eqn:E; [|done].
  apply random_choice_Ok in E as [Hin ->]. simpl.
  destruct (_grid s !! pos) as [agent|] eqn:Hagent; [|done].
  intros [= <-]. by exists pos, agent.
Qed.

(** [step] is the determine phase over all agents, then the commit phase
    over all agents, then the counter and the perturbation. *)
Lemma step_phases s s' :
  step s = Ok s' ↔
  ∃ s1 s2,
    agents_do determine_opinion s = Ok s1 ∧
    agents_do assume_opinion s1 = Ok s2 ∧
    if decide ((_steps s2 + 1) `mod` 100 = 0)
    then manipulate_random_cell (with_steps (_steps s2 + 1) s2) = Ok s'
    else s' = with_steps (_steps s2 + 1) s2.
Proof.
  unfold step. split.
  - intros (s1 & H1 & (s2 & H2 & H3)%bind_Ok)%bind_Ok.
    exists s1, s2. simpl in H3. repeat split; try done.
    case_decide; congruence.
  - intros (s1 & s2 & -> & H2 & H3). simpl. rewrite H2. simpl.
    case_decide; congruence.
Qed.

Lemma step_lookup s s' p :
  step s = Ok s' → option_Forall2 evolves (_grid s !! p) (_grid s' !! p).
Proof.
  intros (s1 & s2 & H1 & H2 & H3)%step_phases.
  unfold agents_do in *.
  pose proof (determine_phase_lookup _ _ _ p H1) as Hc1.
  destruct (assume_phase (agents s1) s1) as (s2' & H2' & _ & _ & _ & _ & _ & _ & Hg2).
  rewrite H2' in H2. injection H2 as ->. specialize (Hg2 p).
  assert (option_Forall2 evolves (_grid s !! p) (_grid s2 !! p)) as Hev.
  { rewrite Hg2. destruct (_grid s !! p) as [c|], (_grid s1 !! p) as [c1|]; try done.
    - apply (inj Some) in Hc1. case_decide; constructor; exists c1; split; auto.
    - case_decide; constructor. }
  destruct (decide ((_steps s2 + 1) `mod` 100 = 0)) as [Hmod|Hmod];
    [|subst s'; exact Hev].
  apply manipulate_random_cell_Ok in H3 as (pos & agent & _ & Hag & -> & _).
  simpl in Hag. destruct (decide (p = pos)) as [->|Hne].
  - rewrite lookup_insert_eq. rewrite Hag in Hev.
    inversion Hev as [c c2 (c1 & Hc & Hor) Hs| ]; subst. constructor.
    exists c1. split; [done|].
    destruct Hor as [->| [->| [->| ->]]]; auto.
  - by rewrite lookup_insert_ne.
Qed.

Lemma evolves_position c c' :
  evolves c c' → unique_id c' = unique_id c ∧ _row c' = _row c ∧ _col c' = _col c.
Proof.
  intros (c1 & Hc & Hor). unfold committed in Hc.
  destruct c, c1 as [? ? ? ? ? []]; simplify_eq/=;
    by destruct Hor as [->| [->| [->| ->]]].
Qed.

Lemma evolves_leader c c' :
  evolves c c' → _is_cult_leader c = true →
  _is_cult_leader c' = true ∧ (_state c' = _state c ∨ _state c' = Some 16).
Proof.
  intros (c1 & Hc & Hor) Hl. unfold committed in Hc.
  destruct c, c1; simplify_eq/=;
    destruct Hor as [->| [->| [->| ->]]]; simpl; auto.
Qed.

Lemma evolves_new_leader c c' :
  evolves c c' → _is_cult_leader c' = true →
  (_is_cult_leader c = true ∧ _state c' = _state c) ∨ _state c' = Some 16.
Proof.
  intros (c1 & Hc & Hor) Hl. unfold committed in Hc.
  destruct c, c1 as [? ? ? ? ? []]; simplify_eq/=;
    destruct Hor as [->| [->| [->| ->]]]; simpl in *; auto; done.
Qed.

Lemma determine_phase_draws refs s s' :
  do_each determine_opinion refs s = Ok s' →
  (model_draws s ≤ model_draws s')%nat ∧ (module_draws s ≤ module_draws s')%nat.
Proof.
  revert s. induction refs as [|ref refs IH]; intros s; simpl.
  - by intros [= <-].
  - intros (s1 & Hc & Hr)%bind_Ok. apply IH in Hr.
    unfold call in Hc. destruct (_grid s !! ref); [|by simplify_eq].
    apply determine_opinion_writes in Hc as (? & _ & _ & _ & _ & _ & ? & ?). lia.
Qed.

Lemma step_frame s s' :
  step s = Ok s' →
  width s' = width s ∧ height s' = height s ∧ agents s' = agents s ∧
  _steps s' = _steps s + 1 ∧ (model_draws s ≤ model_draws s')%nat.
Proof.
  intros (s1 & s2 & H1 & H2 & H3)%step_phases. unfold agents_do in *.
  pose proof (determine_phase_draws _ _ _ H1) as [Hm1 _].
  apply determine_phase_committed in H1 as (Hw1 & Hh1 & Ha1 & Hs1 & _).
  destruct (assume_phase (agents s1) s1) as (s2' & H2' & Hw & Hh & Ha & Hst & Hm & _).
  rewrite H2' in H2. injection H2 as ->.
  destruct (decide ((_steps s2 + 1) `mod` 100 = 0)) as [Hmod|Hmod].
  - apply manipulate_random_cell_Ok in H3 as (? & ? & _ & _ & _ & -> & -> & -> & -> & -> & _).
    simpl. repeat split; try congruence; lia.
  - subst s'. simpl. repeat split; try congruence; lia.
Qed.

End Frames.

(** ** Well-formed and reachable models *)

Section Invariants.

Context {rs : RandomSource}.

Lemma random_randrange_bounds start stop s :
  start < stop →
  start ≤ (random_randrange start stop s).1 < stop ∧
  (random_randrange start stop s).2 = with_model_draws (S (model_draws s)) s.
Proof.
  intros Hlt. unfold random_randrange. simpl. split; [|done].
  pose proof (Z.mod_pos_bound (Z.of_nat (model_random (model_draws s))) (stop - start)).
  lia.
Qed.

(** The cells [__init__] creates: any property that holds of a new cell
    for each of the sixteen values the draw can take holds of every cell
    of the filled grid. *)
Lemma place_cells_Forall (P : Coordinate → ColorCell → Prop) coords s :
  (∀ pos k, 0 ≤ k < 16 →
     P pos (ColorCell_init pos (pos.1 + pos.2 * pos.1) (OPINIONS !! Z.to_nat k))) →
  map_Forall P (_grid s) → map_Forall P (_grid (place_cells coords s)).
Proof.
  intros HP. revert s. induction coords as [|[row col] coords IH]; intros s Hs; [done|].
  simpl. apply IH. simpl. apply map_Forall_insert_2; [|done].
  apply (HP (row, col)).
  pose proof (random_randrange_bounds 0 16 s). simpl in *. lia.
Qed.

Lemma place_cells_frame coords s :
  width (place_cells coords s) = width s ∧ height (place_cells coords s) = height s ∧
  _steps (place_cells coords s) = _steps s ∧
  module_draws (place_cells coords s) = module_draws s ∧
  agents (place_cells coords s) = agents s ++ coords ∧
  dom (_grid (place_cells coords s)) = dom (_grid s) ∪ list_to_set coords.
Proof.
  revert s. induction coords as [|[row col] coords IH]; intros s.
  - simpl. rewrite app_nil_r. repeat split. by rewrite union_empty_r_L.
  - simpl. destruct (IH
      {| width := width s; height := height s;
         _grid := <[(row, col) :=
                    ColorCell_init (row, col) (row + col * row)
                      (OPINIONS !! Z.to_nat (0 + Z.of_nat (model_random (model_draws s)) `mod` (16 - 0)))]>
                    (_grid s);
         agents := agents s ++ [(row, col)]; _steps := _steps s;
         model_draws := S (model_draws s); module_draws := module_draws s |})
      as (-> & -> & -> & -> & -> & ->).
    simpl. rewrite <- app_assoc. repeat split.
    by rewrite dom_insert_L, (union_comm_L {[(row, col)]}), <- union_assoc_L.
Qed.

Lemma wf_populate w h : wf (populate w h).
Proof.
  unfold wf, populate.
  destruct (place_cells_frame (Mesa.coord_iter w h) (empty_model w h))
    as (-> & -> & _ & _ & -> & ->).
  simpl. repeat split.
  - by rewrite dom_empty_L, union_empty_l_L.
  - apply place_cells_Forall; [by intros [] ?|]. apply map_Forall_empty.
Qed.

(** No cell is a leader when [__init__] has filled the grid, and every
    opinion is one of [0..15]. *)
Lemma populate_cells w h :
  map_Forall (λ _ c, _is_cult_leader c = false ∧ _next_state c = None ∧
                     ∃ v, _state c = Some v ∧ 0 ≤ v ≤ 15)
             (_grid (populate w h)).
Proof.
  apply place_cells_Forall; [|apply map_Forall_empty].
  intros pos k Hk. simpl. repeat split.
  exists k. split; [|lia].
  assert (k = 0 ∨ k = 1 ∨ k = 2 ∨ k = 3 ∨ k = 4 ∨ k = 5 ∨ k = 6 ∨ k = 7 ∨ k = 8 ∨
          k = 9 ∨ k = 10 ∨ k = 11 ∨ k = 12 ∨ k = 13 ∨ k = 14 ∨ k = 15) as Hcases by lia.
  repeat (destruct Hcases as [->|Hcases]; [done|]). by subst k.
Qed.

Lemma leaders_hold_last_populate w h : leaders_hold_last (populate w h).
Proof.
  intros p c Hc. apply populate_cells in Hc as (Hl & _). congruence.
Qed.

Lemma wf_step s s' : wf s → step s = Ok s' → wf s'.
Proof.
  intros (Ha & Hd & Hp) Hstep.
  pose proof (step_frame _ _ Hstep) as (Hw & Hh & Hag & _).
  unfold wf. rewrite Hw, Hh, Hag. repeat split; [done|..].
  - rewrite <- Hd. apply set_eq. intros p. rewrite !elem_of_dom.
    pose proof (step_lookup _ _ p Hstep) as Hev.
    destruct Hev; split; intros [? ?]; eauto; done.
  - intros p c' Hc'. pose proof (step_lookup _ _ p Hstep) as Hev.
    rewrite Hc' in Hev. inversion Hev as [c ? Hcc Hc|]; subst.
    apply evolves_position in Hcc as (_ & -> & ->). by apply (Hp p).
Qed.

Lemma leaders_hold_last_step s s' :
  leaders_hold_last s → step s = Ok s' → leaders_hold_last s'.
Proof.
  intros Hl Hstep p c' Hc' Hlead.
  pose proof (step_lookup _ _ p Hstep) as Hev.
  rewrite Hc' in Hev. inversion Hev as [c ? Hcc Hc|]; subst.
  destruct (evolves_new_leader _ _ Hcc Hlead) as [[Hcl ->]|]; [|done].
  by apply (Hl p).
Qed.

Lemma reachable_wf s : reachable s → wf s.
Proof. induction 1; eauto using wf_populate, wf_step. Qed.

Lemma reachable_leaders_hold_last s : reachable s → leaders_hold_last s.
Proof.
  induction 1; eauto using leaders_hold_last_populate, leaders_hold_last_step.
Qed.

End Invariants.

(** ** The geometry of the lattice *)

Lemma elem_of_range a b x : x ∈ range a b ↔ a ≤ x < b.
Proof. unfold range. rewrite elem_of_seqZ. lia. Qed.

Lemma NoDup_range a b : NoDup (range a b).
Proof. apply NoDup_seqZ. Qed.

Lemma elem_of_coord_iter w h p :
  p ∈ Mesa.coord_iter w h ↔ 0 ≤ p.1 < w ∧ 0 ≤ p.2 < h.
Proof.
  unfold Mesa.coord_iter. rewrite list_elem_of_bind. split.
  - intros (x & (y & Hp & Hy)%list_elem_of_bind & Hx).
    apply list_elem_of_singleton in Hp as ->.
    apply elem_of_range in Hx, Hy. simpl. lia.
  - intros [Hx Hy]. exists p.1. rewrite elem_of_range. split; [|done].
    apply list_elem_of_bind. exists p.2. rewrite elem_of_range. split; [|done].
    destruct p. apply list_elem_of_singleton. done.
Qed.

Lemma NoDup_coord_iter w h : NoDup (Mesa.coord_iter w h).
Proof.
  unfold Mesa.coord_iter. apply NoDup_bind; [| |apply NoDup_range].
  - intros x1 x2 p _ _ (y1 & Hp1 & _)%list_elem_of_bind (y2 & Hp2 & _)%list_elem_of_bind.
    apply list_elem_of_singleton in Hp1, Hp2. congruence.
  - intros x _. apply NoDup_bind; [| |apply NoDup_range].
    + intros y1 y2 p _ _ Hp1 Hp2.
      apply list_elem_of_singleton in Hp1, Hp2. congruence.
    + intros y _. apply NoDup_singleton.
Qed.

(** The coordinates the grid enumerates as a neighbourhood: those of the
    lattice within [radius] of [pos] in each direction, within [radius] in
    Manhattan distance unless [moore], and [pos] itself only with
    [include_center]. *)
Lemma elem_of_get_neighborhood w h pos moore ic radius q :
  q ∈ Mesa.get_neighborhood w h pos moore ic radius ↔
  (0 ≤ q.1 < w ∧ 0 ≤ q.2 < h) ∧ chebyshev pos q ≤ radius ∧
  (moore = false → manhattan pos q ≤ radius) ∧ (ic = false → q ≠ pos).
Proof.
  unfold Mesa.get_neighborhood, chebyshev, manhattan.
  assert (∀ l : list Coordinate,
    q ∈ (if ic then l else filter (λ p, p ≠ pos) l) ↔ q ∈ l ∧ (ic = false → q ≠ pos)) as Hic.
  { intros l. destruct ic; [|rewrite list_elem_of_filter]; intuition congruence. }
  rewrite Hic. clear Hic. rewrite list_elem_of_bind.
  setoid_rewrite list_elem_of_bind. setoid_rewrite elem_of_range.
  destruct q as [qx qy], pos as [x y]. simpl. split.
  - intros [(nx & (ny & Hq & Hy) & Hx) Hc].
    destruct moore; simpl in Hq.
    + apply list_elem_of_singleton in Hq. simplify_eq. repeat split; try done; lia.
    + case_bool_decide; [by apply elem_of_nil in Hq|].
      apply list_elem_of_singleton in Hq. simplify_eq. repeat split; try done; lia.
  - intros ((Hx & Hy) & Hr & Hm & Hc). split; [|done].
    exists qx. split; [|lia]. exists qy. split; [|lia].
    destruct moore; simpl.
    + apply list_elem_of_singleton. done.
    + rewrite bool_decide_eq_false_2 by (specialize (Hm eq_refl); lia).
      apply list_elem_of_singleton. done.
Qed.

Lemma NoDup_get_neighborhood w h pos moore ic radius :
  NoDup (Mesa.get_neighborhood w h pos moore ic radius).
Proof.
  unfold Mesa.get_neighborhood.
  assert (∀ l : list Coordinate, NoDup l →
    NoDup (if ic then l else filter (λ p, p ≠ pos) l)) as Hic.
  { intros l Hl. destruct ic; [done|]. by apply NoDup_filter. }
  apply Hic. clear Hic.
  assert (∀ (nx ny : Z) (p : Coordinate),
    p ∈ (if negb moore && bool_decide (radius < Z.abs (nx - pos.1) + Z.abs (ny - pos.2))
         then [] else [(nx, ny)]) → p = (nx, ny)) as Hone.
  { intros nx ny p. destruct (_ && _); [by intros ?%elem_of_nil|].
    by intros ?%list_elem_of_singleton. }
  apply NoDup_bind; [| |apply NoDup_range].
  - intros x1 x2 p _ _ (y1 & Hp1 & _)%list_elem_of_bind (y2 & Hp2 & _)%list_elem_of_bind.
    apply Hone in Hp1, Hp2. congruence.
  - intros x _. apply NoDup_bind; [| |apply NoDup_range].
    + intros y1 y2 p _ _ Hp1 Hp2. apply Hone in Hp1, Hp2. congruence.
    + intros y _. destruct (_ && _); [apply NoDup_nil_2 | apply NoDup_singleton].
Qed.

Lemma wf_is_Some s p :
  wf s → is_Some (_grid s !! p) ↔ 0 ≤ p.1 < width s ∧ 0 ≤ p.2 < height s.
Proof.
  intros (Ha & Hd & _). rewrite <- elem_of_dom, Hd, elem_of_list_to_set, Ha.
  apply elem_of_coord_iter.
Qed.

Lemma wf_position s p c : wf s → _grid s !! p = Some c → (_row c, _col c) = p.
Proof. intros (_ & _ & Hp) Hc. by apply (Hp p). Qed.

Lemma elem_of_iter_neighbors s pos moore ic radius c :
  wf s →
  c ∈ iter_neighbors s pos moore ic radius ↔
  ∃ q, _grid s !! q = Some c ∧ chebyshev pos q ≤ radius ∧
       (moore = false → manhattan pos q ≤ radius) ∧ (ic = false → q ≠ pos).
Proof.
  intros Hwf. unfold iter_neighbors. rewrite list_elem_of_omap.
  setoid_rewrite elem_of_get_neighborhood. split.
  - intros (q & (_ & ?) & ?). eauto.
  - intros (q & Hq & ?). exists q. split; [|done]. split; [|done].
    apply (wf_is_Some s q Hwf). eauto.
Qed.

Lemma chebyshev_one pos q : chebyshev pos q ≤ 1 ∧ q ≠ pos ↔ chebyshev pos q = 1.
Proof.
  unfold chebyshev. destruct pos as [x y], q as [qx qy]. simpl. split.
  - intros [Hle Hne].
    destruct (decide (qx = x)) as [->|]; destruct (decide (qy = y)) as [->|]; [done|lia..].
  - intros Heq. split; [lia|]. intros [= -> ->]. lia.
Qed.

Lemma iter_neighbors_moore s ref :
  wf s → iter_neighbors s ref true false 1 ≡ₚ moore_neighbors s ref.
Proof.
  intros (Ha & _). unfold iter_neighbors, moore_neighbors.
  apply omap_Permutation, NoDup_Permutation.
  - apply NoDup_get_neighborhood.
  - apply NoDup_filter. rewrite Ha. apply NoDup_coord_iter.
  - intros q. rewrite elem_of_get_neighborhood, list_elem_of_filter, Ha, elem_of_coord_iter.
    rewrite <- (chebyshev_one ref q). split.
    + intros (? & ? & _ & Hne). auto.
    + intros ([? ?] & ?). repeat split; try done; lia.
Qed.

(** ** Counting *)

Lemma counter_get_incr k c k' :
  counter_get (counter_incr k c) k'
  = if decide (k' = k) then S (counter_get c k') else counter_get c k'.
Proof.
  induction c as [|[k1 n] c IH]; simpl.
  - by repeat case_decide.
  - destruct (decide (k = k1)) as [->|Hk]; simpl.
    + by repeat case_decide; simplify_eq.
    + rewrite IH. by repeat case_decide; simplify_eq.
Qed.

Lemma counter_get_Counter_of l k :
  counter_get (Counter_of l) k = length (filter (λ x, x = k) l).
Proof.
  unfold Counter_of.
  assert (∀ c, counter_get (foldl (λ c k, counter_incr k c) c l) k
               = (counter_get c k + length (filter (λ x, x = k) l))%nat) as Hgen.
  { induction l as [|x l IH]; intros c; simpl; [lia|].
    rewrite IH, counter_get_incr, filter_cons.
    repeat case_decide; simplify_eq; simpl; lia. }
  by rewrite Hgen.
Qed.

Lemma counter_incr_nonempty k c : counter_incr k c ≠ [].
Proof. destruct c as [|[k' n] c]; simpl; [done|]. by case_decide. Qed.

Lemma Counter_of_nonempty l : l ≠ [] → Counter_of l ≠ [].
Proof.
  unfold Counter_of. destruct l as [|x l]; [done|]. intros _. simpl.
  assert (∀ c, c ≠ [] → foldl (λ c k, counter_incr k c) c l ≠ []) as Hgen.
  { induction l as [|y l IH]; intros c Hc; simpl; [done|].
    apply IH, counter_incr_nonempty. }
  by apply Hgen.
Qed.

Lemma insert_by_count_nonempty e l : insert_by_count e l ≠ [].
Proof. destruct l; simpl; [done|]. by destruct (_ <? _)%nat. Qed.

Lemma most_common_nonempty c : c ≠ [] → most_common c ≠ [].
Proof. destruct c; [done|]. intros _. simpl. apply insert_by_count_nonempty. Qed.

Lemma tied_opinions_nonempty polled : polled ≠ [] → tied_opinions polled ≠ [].
Proof.
  unfold tied_opinions. intros Hne.
  destruct (head polled) as [first|] eqn:Hhead.
  - assert (first ∈ filter (λ neighbor, neighbor.2 = first.2) polled) as Hin.
    { apply list_elem_of_filter. split; [done|]. by apply head_Some_elem_of. }
    intros Heq. rewrite Heq in Hin. by apply elem_of_nil in Hin.
  - by apply head_None in Hhead.
Qed.

Lemma low_tied_opinions_nonempty polled : polled ≠ [] → low_tied_opinions polled ≠ [].
Proof.
  unfold low_tied_opinions. intros Hne.
  destruct (last polled) as [lowest|] eqn:Hlast.
  - assert (lowest ∈ filter (λ neighbor, neighbor.2 = lowest.2) polled) as Hin.
    { apply list_elem_of_filter. split; [done|].
      apply last_Some in Hlast as [l' ->]. apply elem_of_app. right. by left. }
    intros Heq. rewrite Heq in Hin. by apply elem_of_nil in Hin.
  - by apply last_None in Hlast.
Qed.

(** When every polled value is [v], the tally has the single entry [v]. *)
Lemma Counter_of_replicate v n :
  Counter_of (replicate (S n) v) = [(v, S n)].
Proof.
  unfold Counter_of. simpl.
  assert (∀ m, foldl (λ c k, counter_incr k c) [(v, m)] (replicate n v)
               = [(v, (m + n)%nat)]) as Hgen.
  { induction n as [|n IH]; intros m; simpl.
    - by rewrite Nat.add_0_r.
    - rewrite decide_True by done. rewrite IH. do 2 f_equal. lia. }
  apply Hgen.
Qed.

(** ** The scan for cult leaders *)

Lemma check_cultists_snoc self l n :
  check_cultists self (l ++ [n]) = check_cultist self (check_cultists self l) n.
Proof. unfold check_cultists. by rewrite foldl_app. Qed.

Lemma check_cultists_no_leader self l :
  Forall (λ n, _is_cult_leader n = false) l → check_cultists self l = (None, 10000).
Proof.
  induction l as [|n l IH] using rev_ind; [done|].
  intros HF. apply Forall_app in HF as [Hl Hn]. apply Forall_inv in Hn.
  rewrite check_cultists_snoc, (IH Hl).
  unfold check_cultist, get_is_cult_leader. by rewrite Hn.
Qed.

(** After the scan, [dist] is the least distance to a scanned leader (or
    the initial 10000 when that is smaller), and [cult_leader_opinion] is
    the opinion of the leader scanned last. *)
Lemma check_cultists_spec self l :
  (check_cultists self l).2 ≤ 10000 ∧
  (∀ n, n ∈ l → _is_cult_leader n = true →
        (check_cultists self l).2 ≤ cell_distance self n) ∧
  ((∃ n, n ∈ l ∧ _is_cult_leader n = true) →
   (∃ n, n ∈ l ∧ _is_cult_leader n = true ∧ (check_cultists self l).1 = _state n) ∧
   ((check_cultists self l).2 = 10000 ∨
    ∃ n, n ∈ l ∧ _is_cult_leader n = true ∧
         (check_cultists self l).2 = cell_distance self n)).
Proof.
  induction l as [|n l (IHa & IHb & IHc)] using rev_ind.
  { split; [done|]. split; [by intros ? ?%elem_of_nil|].
    by intros (? & ?%elem_of_nil & _). }
  rewrite check_cultists_snoc. unfold check_cultist at 1 2 3 4 5.
  fold (cell_distance self n). unfold get_is_cult_leader, get_state.
  destruct (_is_cult_leader n) eqn:Hn; simpl.
  - split; [case_decide; lia|]. split.
    + intros m [Hm| ->%list_elem_of_singleton]%elem_of_app Hlead.
      * specialize (IHb m Hm Hlead). case_decide; lia.
      * case_decide; lia.
    + intros _. split.
      * exists n. rewrite elem_of_app, list_elem_of_singleton. auto.
      * case_decide as Hlt.
        -- right. exists n. rewrite elem_of_app, list_elem_of_singleton. auto.
        -- destruct (decide (Exists (λ m, _is_cult_leader m = true) l)) as [Hex|Hnex].
           ++ apply Exists_exists in Hex.
              destruct (IHc Hex) as [_ [Heq|(m & Hm & Hlead & Heq)]]; [by left|].
              right. exists m. rewrite elem_of_app. auto.
           ++ left. rewrite check_cultists_no_leader; [done|].
              apply Forall_forall. intros m Hm.
              destruct (_is_cult_leader m) eqn:E; [|done]. destruct Hnex.
              apply Exists_exists. eauto.
  - split; [done|]. split.
    + intros m [Hm| ->%list_elem_of_singleton]%elem_of_app Hlead; [auto|congruence].
    + intros (m & [Hm| ->%list_elem_of_singleton]%elem_of_app & Hlead); [|congruence].
      destruct IHc as [(m1 & ? & ? & ?) Hd]; [eauto|]. split.
      * exists m1. rewrite elem_of_app. auto.
      * destruct Hd as [?|(m2 & ? & ? & ?)]; [by left|].
        right. exists m2. rewrite elem_of_app. auto.
Qed.

(** ** When the update returns *)

Section Totality.

Context {rs : RandomSource}.

Lemma choose_opinion_nonempty clo dist tied low s :
  tied ≠ [] → low ≠ [] → ∃ next s', choose_opinion clo dist tied low s = Ok (next, s').
Proof.
  intros Ht Hl. unfold choose_opinion.
  destruct (truthy clo).
  - destruct (random_random s) as [u s1].
    destruct (Qlt_bool u (influence dist)); [by eauto|].
    destruct (random_random s1) as [u2 s2]. destruct (Qlt_bool u2 _).
    + destruct (random_choice_nonempty low s2 Hl) as [nb ->]. simpl. eauto.
    + destruct (random_choice_nonempty tied s2 Ht) as [nb ->]. simpl. eauto.
  - destruct (random_random s) as [u2 s2]. destruct (Qlt_bool u2 _).
    + destruct (random_choice_nonempty low s2 Hl) as [nb ->]. simpl. eauto.
    + destruct (random_choice_nonempty tied s2 Ht) as [nb ->]. simpl. eauto.
Qed.

Lemma tie_lists_nonempty s self :
  iter_neighbors s (_row self, _col self) true false 1 ≠ [] →
  (tie_lists s self).1 ≠ [] ∧ (tie_lists s self).2 ≠ [].
Proof.
  intros Hne. unfold tie_lists. simpl.
  assert (most_common (Counter_of
            (get_state <$> iter_neighbors s (_row self, _col self) true false 1)) ≠ []) as Hp.
  { apply most_common_nonempty, Counter_of_nonempty.
    by destruct (iter_neighbors s _ true false 1). }
  split; [by apply tied_opinions_nonempty | by apply low_tied_opinions_nonempty].
Qed.

Lemma determine_opinion_neighbors ref self s :
  iter_neighbors s (_row self, _col self) true false 1 ≠ [] →
  ∃ s', determine_opinion ref self s = Ok s'.
Proof.
  intros [Ht Hl]%tie_lists_nonempty. unfold tie_lists in Ht, Hl. simpl in Ht, Hl.
  unfold determine_opinion. destruct (check_cultists self _) as [clo dist].
  destruct (choose_opinion_nonempty clo dist _ _ s Ht Hl) as (next & s' & ->).
  simpl. eauto.
Qed.

(** A cell without neighbours: both lists are empty and the choice
    raises. *)
Lemma determine_opinion_alone ref self s :
  iter_neighbors s (_row self, _col self) true false 1 = [] →
  iter_neighbors s (_row self, _col self) false false 4 = [] →
  determine_opinion ref self s = Raise IndexError.
Proof.
  intros Hn Hc. unfold determine_opinion. rewrite Hn, Hc. simpl.
  unfold choose_opinion. simpl. by destruct (Qlt_bool _ _).
Qed.

Lemma wf_has_neighbor s ref self :
  wf s → _grid s !! ref = Some self → 1 < width s ∨ 1 < height s →
  iter_neighbors s (_row self, _col self) true false 1 ≠ [].
Proof.
  intros Hwf Hself Hsize.
  rewrite (wf_position s ref self Hwf Hself).
  assert (is_Some (_grid s !! ref)) as Hin by eauto.
  apply (wf_is_Some s ref Hwf) in Hin. destruct ref as [x y]. simpl in Hin.
  assert (∃ q : Coordinate, (0 ≤ q.1 < width s ∧ 0 ≤ q.2 < height s) ∧
            chebyshev (x, y) q ≤ 1 ∧ q ≠ (x, y)) as (q & Hq & Hc & Hne).
  { unfold chebyshev. simpl.
    destruct Hsize; [destruct (decide (x = 0)) | destruct (decide (y = 0))].
    - exists (x + 1, y). simpl. split; [lia|]. split; [lia|]. intros [= ?]. lia.
    - exists (x - 1, y). simpl. split; [lia|]. split; [lia|]. intros [= ?]. lia.
    - exists (x, y + 1). simpl. split; [lia|]. split; [lia|]. intros [= ?]. lia.
    - exists (x, y - 1). simpl. split; [lia|]. split; [lia|]. intros [= ?]. lia. }
  apply (wf_is_Some s q Hwf) in Hq as [c Hc'].
  assert (c ∈ iter_neighbors s (x, y) true false 1) as Hel.
  { apply elem_of_iter_neighbors; [done|]. exists q. by repeat split. }
  intros Heq. rewrite Heq in Hel. by apply elem_of_nil in Hel.
Qed.

Lemma wf_committed s s' :
  wf s → width s' = width s → height s' = height s → agents s' = agents s →
  committed <$> _grid s' = committed <$> _grid s → wf s'.
Proof.
  intros (Ha & Hd & Hp) Hw Hh Hag Hg. unfold wf. rewrite Hw, Hh, Hag.
  repeat split; [done|..].
  - by rewrite <- Hd, <- (dom_fmap_L committed (_grid s')), Hg, dom_fmap_L.
  - intros p c' Hc'.
    assert ((committed <$> _grid s) !! p = Some (committed c')) as Hc.
    { by rewrite <- Hg, lookup_fmap, Hc'. }
    rewrite lookup_fmap in Hc. destruct (_grid s !! p) as [c|] eqn:Hcp; [|done].
    apply (Hp p) in Hcp. unfold committed in Hc. simplify_eq/=. congruence.
Qed.

(** On a well-formed grid of more than one cell the determine phase
    returns, over any list of agents. *)
Lemma determine_phase_returns refs s :
  wf s → 1 < width s ∨ 1 < height s →
  ∃ s', do_each determine_opinion refs s = Ok s'.
Proof.
  revert s. induction refs as [|ref refs IH]; intros s Hwf Hsize; [by eexists|].
  simpl. unfold call. destruct (_grid s !! ref) as [self|] eqn:Hself; [|by apply IH].
  destruct (determine_opinion_neighbors ref self s) as [s1 Hs1];
    [by eapply wf_has_neighbor|].
  rewrite Hs1. simpl.
  assert (do_each determine_opinion [ref] s = Ok s1) as Hone.
  { simpl. unfold call. by rewrite Hself, Hs1. }
  apply determine_phase_committed in Hone as (Hw & Hh & Ha & _ & Hg).
  apply IH; [by eapply wf_committed | by rewrite Hw, Hh].
Qed.

Lemma determine_phase_wf refs s s' :
  wf s → do_each determine_opinion refs s = Ok s' → wf s'.
Proof.
  intros Hwf (Hw & Hh & Ha & _ & Hg)%determine_phase_committed.
  by eapply wf_committed.
Qed.

(** On a well-formed grid of more than one cell, [step] returns. *)
Lemma step_returns s :
  wf s → 1 < width s ∨ 1 < height s → 0 < width s → 0 < height s →
  ∃ s', step s = Ok s'.
Proof.
  intros Hwf Hsize Hw0 Hh0.
  destruct (determine_phase_returns (agents s) s Hwf Hsize) as [s1 H1].
  pose proof (determine_phase_wf _ _ _ Hwf H1) as Hwf1.
  pose proof (determine_phase_committed _ _ _ H1) as (Hw1 & Hh1 & _).
  destruct (assume_phase (agents s1) s1) as (s2 & H2 & Hw2 & Hh2 & _ & _ & _ & _ & Hg2).
  destruct (decide ((_steps s2 + 1) `mod` 100 = 0)) as [Hmod|Hmod].
  - set (s3 := with_steps (_steps s2 + 1) s2).
    assert (Mesa.coord_iter (width s3) (height s3) ≠ []) as Hne.
    { assert ((0, 0) ∈ Mesa.coord_iter (width s3) (height s3)) as Hin.
      { apply elem_of_coord_iter. simpl. lia. }
      intros Heq. rewrite Heq in Hin. by apply elem_of_nil in Hin. }
    destruct (random_choice_nonempty _ s3 Hne) as [pos Hpos].
    pose proof (random_choice_Ok _ _ _ _ Hpos) as [Hin _].
    assert (is_Some (_grid s2 !! pos)) as [agent Hagent].
    { rewrite Hg2.
      assert (is_Some (_grid s1 !! pos)) as [c ->].
      { apply (wf_is_Some s1 pos Hwf1). apply elem_of_coord_iter in Hin.
        simpl in Hin. lia. }
      case_decide; simpl; eauto. }
    eexists. apply step_phases. exists s1, s2. split; [done|]. split; [done|].
    rewrite decide_True by done. fold s3. unfold manipulate_random_cell.
    rewrite Hpos. simpl. rewrite Hagent. done.
  - eexists. apply step_phases. exists s1, s2. split; [done|]. split; [done|].
    by rewrite decide_False.
Qed.

Lemma wf_single_alone s ref self moore radius :
  wf s → width s ≤ 1 → height s ≤ 1 → _grid s !! ref = Some self →
  iter_neighbors s (_row self, _col self) moore false radius = [].
Proof.
  intros Hwf Hw Hh Hself.
  rewrite (wf_position s ref self Hwf Hself).
  destruct (iter_neighbors s ref moore false radius) as [|c l] eqn:Hl; [done|].
  assert (c ∈ iter_neighbors s ref moore false radius) as Hc by (rewrite Hl; by left).
  apply elem_of_iter_neighbors in Hc as (q & Hq & _ & _ & Hne); [|done].
  assert (is_Some (_grid s !! ref)) as Hr by eauto.
  assert (is_Some (_grid s !! q)) as Hq' by eauto.
  apply (wf_is_Some s _ Hwf) in Hr, Hq'.
  destruct Hne; [done|]. destruct q, ref. simpl in *. f_equal; lia.
Qed.

(** On a well-formed grid of a single cell, [step] raises. *)
Lemma step_single_raises s ref self :
  wf s → width s ≤ 1 → height s ≤ 1 → _grid s !! ref = Some self →
  step s = Raise IndexError.
Proof.
  intros Hwf Hw Hh Hself.
  assert (is_Some (_grid s !! ref)) as Hr by eauto.
  apply (wf_is_Some s _ Hwf) in Hr.
  assert (width s = 1 ∧ height s = 1 ∧ ref = (0, 0)) as (Hw1 & Hh1 & ->).
  { destruct ref. simpl in Hr. repeat split; try lia. f_equal; lia. }
  unfold step, agents_do. rewrite (proj1 Hwf), Hw1, Hh1.
  change (Mesa.coord_iter 1 1) with [((0, 0) : Coordinate)].
  simpl. unfold call. rewrite Hself.
  rewrite determine_opinion_alone; [done|..]; by eapply wf_single_alone.
Qed.

(** A reachable model with a leader has more than one cell. *)
Lemma reachable_leader_size s p c :
  reachable s → _grid s !! p = Some c → _is_cult_leader c = true →
  (1 < width s ∨ 1 < height s) ∧ 0 < width s ∧ 0 < height s.
Proof.
  intros Hr. revert p c. induction Hr as [w h|s s' Hr IH Hstep]; intros p c Hc Hl.
  - apply populate_cells in Hc as (? & _). congruence.
  - pose proof (reachable_wf s Hr) as Hwf.
    pose proof (step_frame _ _ Hstep) as (-> & -> & _).
    pose proof (step_lookup _ _ p Hstep) as Hev. rewrite Hc in Hev.
    inversion Hev as [c0 ? _ Hc0|]; subst. symmetry in Hc0.
    assert (is_Some (_grid s !! p)) as Hin by eauto.
    apply (wf_is_Some s _ Hwf) in Hin.
    split; [|lia].
    destruct (decide (1 < width s)); [by left|].
    destruct (decide (1 < height s)); [by right|].
    rewrite (step_single_raises s p c0) in Hstep; [done|done|lia|lia|done].
Qed.

End Totality.

(** ** The claims *)

Section Claims.

Context {rs : RandomSource}.

(** C10. In every reachable model, every cell that is a cult leader holds
    opinion 16, the last entry of [OPINIONS], which is truthy; and for
    every cell, the opinion the leader scan of [determine_opinion] records
    is truthy exactly when the scan met a leader, so the truthiness test
    of line 74 never mistakes a found leader for none. *)
Theorem C10_leaders_hold_last_opinion s :
  reachable s →
  (∀ p c, _grid s !! p = Some c → _is_cult_leader c = true →
          _state c = last OPINIONS ∧ _state c = Some 16 ∧ truthy (_state c) = true) ∧
  (∀ ref self, _grid s !! ref = Some self →
     truthy (check_cultists self
               (iter_neighbors s (_row self, _col self) false false 4)).1 = true ↔
     ∃ n, n ∈ iter_neighbors s (_row self, _col self) false false 4 ∧
          _is_cult_leader n = true).
Proof.
  intros Hr. pose proof (reachable_leaders_hold_last s Hr) as Hl.
  split.
  - intros p c Hc Hlead. rewrite (Hl p c Hc Hlead). done.
  - intros ref self _.
    set (l := iter_neighbors s (_row self, _col self) false false 4).
    split.
    + intros Ht.
      destruct (decide (Exists (λ m, _is_cult_leader m = true) l)) as [Hex|Hnex].
      * by apply Exists_exists in Hex.
      * rewrite check_cultists_no_leader in Ht; [done|].
        apply Forall_forall. intros m Hm.
        destruct (_is_cult_leader m) eqn:E; [|done]. destruct Hnex.
        apply Exists_exists. eauto.
    + intros Hex.
      destruct (check_cultists_spec self l) as (_ & _ & Hc).
      destruct (Hc Hex) as [(n & Hn & Hlead & ->) _].
      apply list_elem_of_omap in Hn as (q & _ & Hq).
      by rewrite (Hl q n Hq Hlead).
Qed.

(** C2. A cell that is a cult leader when [step] is called on a reachable
    model is a cult leader with the same opinion when the step returns,
    and the step does return; this holds on the steps that run the
    perturbation too, whichever cell it selects. *)
Theorem C2_leader_opinion_immutable s p c :
  reachable s → _grid s !! p = Some c → _is_cult_leader c = true →
  ∃ s', step s = Ok s' ∧
    ∃ c', _grid s' !! p = Some c' ∧ _is_cult_leader c' = true ∧ _state c' = _state c.
Proof.
  intros Hr Hc Hlead.
  destruct (reachable_leader_size s p c Hr Hc Hlead) as (Hsize & Hw & Hh).
  destruct (step_returns s (reachable_wf s Hr) Hsize Hw Hh) as [s' Hstep].
  exists s'. split; [done|].
  pose proof (step_lookup _ _ p Hstep) as Hev. rewrite Hc in Hev.
  inversion Hev as [c0 c' Hcc Hc0 Hc'|]; subst. exists c'. split; [done|].
  destruct (evolves_leader _ _ Hcc Hlead) as [? [?|Heq]]; [done|].
  split; [done|]. rewrite Heq. symmetry.
  by apply (reachable_leaders_hold_last s Hr p).
Qed.










Lemma determine_phase_other refs s s' ref :
  ref ∉ refs → do_each determine_opinion refs s = Ok s' →
  _grid s' !! ref = _grid s !! ref.
Proof.
  revert s. induction refs as [|r refs IH]; intros s Hnin; simpl.
  - by intros [= <-].
  - apply not_elem_of_cons in Hnin as [Hne Hnin].
    intros (s1 & Hc & Hr)%bind_Ok. rewrite (IH s1 Hnin Hr).
    unfold call in Hc. destruct (_grid s !! r) as [self|]; [|by simplify_eq].
    apply determine_opinion_writes in Hc as (next & -> & _).
    by rewrite lookup_insert_ne.
Qed.

(** A cell whose Moore neighbours all hold [V], with no leader within
    Manhattan distance 4: the pending opinion is [V] whatever is drawn. *)
Lemma determine_opinion_unanimous s ref self V :
  wf s → _grid s !! ref = Some self →
  moore_neighbors s ref ≠ [] →
  (∀ n, n ∈ moore_neighbors s ref → _state n = Some V) →
  (∀ q c, _grid s !! q = Some c → q ≠ ref → manhattan ref q ≤ 4 →
          _is_cult_leader c = false) →
  ∃ s', determine_opinion ref self s = Ok s' ∧
        _grid s' = <[ref := with_next_state (Some V) self]> (_grid s).
Proof.
  intros Hwf Hself Hne HV Hnolead.
  pose proof (iter_neighbors_moore s ref Hwf) as Hperm.
  unfold determine_opinion. rewrite (wf_position s ref self Hwf Hself).
  set (polled := iter_neighbors s ref true false 1) in *.
  assert (∃ k, get_state <$> polled = replicate (S k) (Some V)) as [k ->].
  { destruct polled as [|n0 polled'] eqn:Hp.
    { destruct Hne. by apply Permutation_nil_l in Hperm. }
    exists (length polled'). symmetry. apply replicate_as_elem_of.
    split; [by rewrite length_fmap|].
    intros y (n & -> & Hn)%list_elem_of_fmap. apply HV. by rewrite <- Hperm. }
  rewrite Counter_of_replicate.
  rewrite check_cultists_no_leader.
  2:{ apply Forall_forall. intros n Hn.
      apply elem_of_iter_neighbors in Hn as (q & Hq & _ & Hm & Hqne); [|done].
      apply (Hnolead q n Hq); auto. }
  unfold most_common, tied_opinions, low_tied_opinions. simpl.
  rewrite !filter_cons, !decide_True, !filter_nil by done.
  unfold choose_opinion, random_random. simpl.
  destruct (Qlt_bool _ _); simpl; eauto.
Qed.

(** C7. On a well-formed grid, for a cell that is no leader, has Moore
    neighbours that all hold opinion [V] and has no leader within Manhattan
    distance 4 (so none within Chebyshev distance 4 either): [step]
    returns, whatever values the random source yields; the next opinion
    the cell has stored is [V]; and its opinion is [V] unless this very
    step's perturbation has designated the cell a leader, which happens
    only on a step whose number is a multiple of 100. *)
Theorem C7_unanimous_neighbours s ref self V :
  wf s → _grid s !! ref = Some self → _is_cult_leader self = false →
  moore_neighbors s ref ≠ [] →
  (∀ n, n ∈ moore_neighbors s ref → _state n = Some V) →
  (∀ q c, _grid s !! q = Some c → q ≠ ref → manhattan ref q ≤ 4 →
          _is_cult_leader c = false) →
  ∃ s', step s = Ok s' ∧
    ∃ c', _grid s' !! ref = Some c' ∧ _next_state c' = Some V ∧
          (_is_cult_leader c' = false → _state c' = Some V) ∧
          ((_steps s + 1) `mod` 100 ≠ 0 → _state c' = Some V).
Proof.
  intros Hwf Hself Hnl Hne HV Hnolead.
  assert (is_Some (_grid s !! ref)) as Href by eauto.
  apply (wf_is_Some s ref Hwf) in Href.
  assert (1 < width s ∨ 1 < height s) as Hsize.
  { destruct (moore_neighbors s ref) as [|n l] eqn:Hm; [done|].
    assert (n ∈ moore_neighbors s ref) as Hn by (rewrite Hm; by left).
    apply list_elem_of_omap in Hn as (q & [Hc Hq]%list_elem_of_filter & Hqn).
    assert (is_Some (_grid s !! q)) as Hq' by eauto.
    apply (wf_is_Some s q Hwf) in Hq'.
    unfold chebyshev in Hc. lia. }
  destruct (step_returns s Hwf Hsize) as [s' Hstep]; [lia..|].
  exists s'. split; [done|].
  apply step_phases in Hstep as (s1 & s2 & H1 & H2 & H3). unfold agents_do in *.
  (* the determine phase, split at the turn of [ref] *)
  assert (ref ∈ agents s) as Hin.
  { rewrite (proj1 Hwf). by apply elem_of_coord_iter. }
  pose proof (NoDup_coord_iter (width s) (height s)) as Hnd.
  rewrite <- (proj1 Hwf) in Hnd.
  apply list_elem_of_split in Hin as (l1 & l2 & Hag). rewrite Hag in Hnd.
  apply NoDup_app in Hnd as (_ & _ & [Hnin2 _]%NoDup_cons).
  pose proof H1 as H1'. rewrite Hag, do_each_app in H1'.
  apply bind_Ok in H1' as (sk & Hk & Hrest). simpl in Hrest.
  apply bind_Ok in Hrest as (sk' & Hcall & Hl2).
  pose proof (determine_phase_lookup _ _ _ ref Hk) as Hck. rewrite Hself in Hck.
  destruct (_grid sk !! ref) as [selfk|] eqn:Hselfk; [|done].
  apply (inj Some) in Hck.
  pose proof (determine_phase_committed _ _ _ Hk) as (Hwk & Hhk & _ & _ & Hgk).
  destruct (determine_opinion_unanimous (rewind s sk) ref self V)
    as (s0' & Hcall0 & Hg0); try done.
  destruct (determine_opinion_snapshot ref self selfk (rewind s sk) sk s0')
    as (next & sk2 & Hcallk & Hg0' & Hgk' & _); [|done|done|].
  { repeat split; simpl; congruence. }
  assert (next = Some V) as ->.
  { rewrite Hg0 in Hg0'.
    assert (Some (with_next_state (Some V) self) = Some (with_next_state next self)) as Heq.
    { rewrite <- (lookup_insert_eq (_grid (rewind s sk)) ref (with_next_state (Some V) self)).
      rewrite Hg0'. by rewrite lookup_insert_eq. }
    by injection Heq. }
  unfold call in Hcall. rewrite Hselfk, Hcallk in Hcall. injection Hcall as <-.
  assert (_grid s1 !! ref = Some (with_next_state (Some V) selfk)) as Hs1.
  { rewrite (determine_phase_other l2 sk2 s1 ref Hnin2 Hl2), Hgk'.
    by rewrite lookup_insert_eq. }
  (* the commit phase *)
  pose proof (determine_phase_committed _ _ _ H1) as (_ & _ & Hag1 & Hst1 & _).
  destruct (assume_phase (agents s1) s1) as (s2' & H2' & _ & _ & _ & Hst2 & _ & _ & Hg2).
  rewrite H2' in H2. injection H2 as ->.
  assert (_grid s2 !! ref
          = Some (with_state (Some V) (with_next_state (Some V) selfk))) as Hs2.
  { rewrite Hg2, decide_True, Hs1.
    - simpl. unfold commit. simpl.
      assert (_is_cult_leader selfk = false) as ->; [|done].
      unfold committed in Hck. simplify_eq. congruence.
    - rewrite Hag1, Hag. apply elem_of_app. right. by left. }
  (* the perturbation *)
  destruct (decide ((_steps s2 + 1) `mod` 100 = 0)) as [Hmod|Hmod].
  - apply manipulate_random_cell_Ok in H3 as (pos & agent & _ & Hagent & -> & _).
    simpl in Hagent. destruct (decide (pos = ref)) as [->|Hpos].
    + rewrite lookup_insert_eq. eexists. split; [done|].
      rewrite Hs2 in Hagent. injection Hagent as <-. simpl.
      repeat split; [done|]. intros Hm. destruct Hm. congruence.
    + rewrite lookup_insert_ne by done. simpl. rewrite Hs2.
      eexists. split; [done|]. by repeat split.
  - subst s'. simpl. rewrite Hs2. eexists. split; [done|]. by repeat split.
Qed.


(** C8 (the code at its input). Whatever the random source and the size of
    the grid, [__init__] fills every coordinate of the grid with a cell
    that is no leader and whose opinion is one of [0..15]: index 16 of
    [OPINIONS] is never drawn, so no cell starts with opinion 16. *)
Theorem C8_initial_opinions_below_16 w h :
  dom (_grid (populate w h)) = list_to_set (Mesa.coord_iter w h) ∧
  map_Forall (λ _ c, _is_cult_leader c = false ∧ _state c ≠ Some 16 ∧
                     ∃ v, _state c = Some v ∧ 0 ≤ v ≤ 15)
             (_grid (populate w h)).
Proof.
  split.
  - destruct (wf_populate w h) as (Ha & Hd & _).
    rewrite Hd, Ha. unfold populate.
    by destruct (place_cells_frame (Mesa.coord_iter w h) (empty_model w h))
      as (-> & -> & _).
  - intros p c Hc. apply populate_cells in Hc as (Hl & _ & v & Hv & Hr).
    split; [done|]. split; [|eauto]. rewrite Hv. intros [= ->]. lia.
Qed.

(** C9 (as the code has it). On a well-formed grid of more than one cell,
    for every cell: the two lists [determine_opinion] may choose from are
    not empty, and the call returns. *)
Theorem C9_update_returns_with_a_neighbour s ref self :
  wf s → 1 < width s ∨ 1 < height s → _grid s !! ref = Some self →
  (tie_lists s self).1 ≠ [] ∧ (tie_lists s self).2 ≠ [] ∧
  ∃ s', determine_opinion ref self s = Ok s'.
Proof.
  intros Hwf Hsize Hself.
  pose proof (wf_has_neighbor s ref self Hwf Hself Hsize) as Hne.
  destruct (tie_lists_nonempty s self Hne) as [? ?].
  split; [done|]. split; [done|]. by apply determine_opinion_neighbors.
Qed.

End Claims.

(** ** The claims on concrete models *)

Lemma reachable_run {rs : RandomSource} n s s' :
  reachable s → run n s = Ok s' → reachable s'.
Proof.
  revert s. induction n as [|n IH]; intros s Hr; simpl.
  - by intros [= <-].
  - intros (s1 & Hstep & Hrun)%bind_Ok. eapply IH; [|done].
    by eapply reachable_step.
Qed.

Lemma two_by_two_after_100_reachable : reachable (rs := sample_source) two_by_two_after_100.
Proof.
  apply (reachable_run (rs := sample_source) 100 two_by_two).
  - apply reachable_populate.
  - vm_compute. reflexivity.
Defined.


(** C2, at the leader of the two-by-two model after a hundred steps. *)
Lemma C2_witness :
  reachable (rs := sample_source) two_by_two_after_100 ∧
  _grid two_by_two_after_100 !! (1, 1) = Some designated_leader ∧
  ∃ s', step (rs := sample_source) two_by_two_after_100 = Ok s' ∧
    ∃ c', _grid s' !! (1, 1) = Some c' ∧ _is_cult_leader c' = true ∧
          _state c' = Some 16.
Proof.
  split; [exact two_by_two_after_100_reachable|].
  assert (_grid two_by_two_after_100 !! (1, 1) = Some designated_leader) as Hc.
  { vm_compute. reflexivity. }
  split; [exact Hc|].
  exact (C2_leader_opinion_immutable (rs := sample_source) two_by_two_after_100 (1, 1)
           designated_leader two_by_two_after_100_reachable Hc eq_refl).
Defined.

(** C10, at the two-by-two model after a hundred steps. *)
Lemma C10_witness :
  reachable (rs := sample_source) two_by_two_after_100 ∧
  _state designated_leader = Some 16.
Proof.
  split; [exact two_by_two_after_100_reachable|].
  assert (_grid two_by_two_after_100 !! (1, 1) = Some designated_leader) as Hc.
  { vm_compute. reflexivity. }
  destruct (C10_leaders_hold_last_opinion (rs := sample_source) two_by_two_after_100
              two_by_two_after_100_reachable) as [Hl _].
  destruct (Hl (1, 1) designated_leader Hc eq_refl) as (_ & H16 & _).
  exact H16.
Defined.





(** C9 fails as stated: on the grid of a single cell the cell has no
    neighbour, [determine_opinion] raises, and so does [__init__]. *)
Lemma C9_single_cell_raises :
  _grid (populate (rs := sample_source) 1 1) !! (0, 0)
  = Some (mkColorCell 0 0 0 (Some 3) None false) ∧
  iter_neighbors (populate (rs := sample_source) 1 1) (0, 0) true false 1 = [] ∧
  determine_opinion (rs := sample_source) (0, 0) (mkColorCell 0 0 0 (Some 3) None false)
    (populate (rs := sample_source) 1 1) = Raise IndexError ∧
  ColorPatches_init (rs := sample_source) 1 1 = Raise IndexError.
Proof. repeat split; vm_compute; reflexivity. Qed.

(** C9 as the code has it, at a corner of the two-by-two model. *)
Lemma C9_witness :
  wf two_by_two ∧
  ∃ s', determine_opinion (rs := sample_source) (0, 0)
          (mkColorCell 0 0 0 (Some 3) None false) two_by_two = Ok s'.
Proof.
  assert (wf two_by_two) as Hwf.
  { apply (bool_decide_unpack _). vm_compute. reflexivity. }
  split; [exact Hwf|].
  destruct (C9_update_returns_with_a_neighbour (rs := sample_source) two_by_two (0, 0)
              (mkColorCell 0 0 0 (Some 3) None false) Hwf) as (_ & _ & Hret).
  - left. change (width two_by_two) with 2. lia.
  - vm_compute. reflexivity.
  - exact Hret.
Defined.

(** C7, at the centre of a three-by-three grid whose cells all hold 5. *)
Lemma C7_witness :
  wf (populate (rs := constant_source) 3 3) ∧
  ∃ s', step (rs := constant_source) (populate (rs := constant_source) 3 3) = Ok s' ∧
        ∃ c', _grid s' !! (1, 1) = Some c' ∧ _next_state c' = Some 5 ∧ _state c' = Some 5.
Proof.
  assert (wf (populate (rs := constant_source) 3 3)) as Hwf.
  { apply (bool_decide_unpack _). vm_compute. reflexivity. }
  split; [exact Hwf|].
  destruct (C7_unanimous_neighbours (rs := constant_source)
              (populate (rs := constant_source) 3 3) (1, 1)
              (mkColorCell 2 1 1 (Some 5) None false) 5 Hwf)
    as (s' & Hstep & c' & Hc' & Hnext & _ & Hstate).
  - vm_compute. reflexivity.
  - reflexivity.
  - vm_compute. discriminate.
  - apply Forall_forall. apply (bool_decide_unpack _). vm_compute. reflexivity.
  - intros q c Hc _ _.
    by apply (populate_cells (rs := constant_source)) in Hc as (? & _).
  - exists s'. split; [exact Hstep|]. exists c'. split; [exact Hc'|].
    split; [exact Hnext|]. apply Hstate. vm_compute. discriminate.
Defined.

(** C4 (the code at its input). Two runs of [__init__] on the two-by-two
    grid with one and the same model generator: the grid is filled alike,
    with opinions 5, 7, 7 and 2, yet after the first step the cell at
    [(0, 0)] holds 2 in the run whose module-level generator yields 0.05
    and 7 in the run whose module-level generator yields 0.5. *)
Theorem C4_module_level_draws_escape_the_seed :
  model_random (RandomSource := seeded_source (1 # 20))
  = model_random (RandomSource := seeded_source (1 # 2)) ∧
  populate (rs := seeded_source (1 # 20)) 2 2 = populate (rs := seeded_source (1 # 2)) 2 2 ∧
  ∃ s1 s2,
    ColorPatches_init (rs := seeded_source (1 # 20)) 2 2 = Ok s1 ∧
    ColorPatches_init (rs := seeded_source (1 # 2)) 2 2 = Ok s2 ∧
    _state <$> _grid s1 !! (0, 0) = Some (Some 2) ∧
    _state <$> _grid s2 !! (0, 0) = Some (Some 7).
Proof.
  split; [reflexivity|]. split; [vm_compute; reflexivity|].
  eexists. eexists.
  split; [vm_compute; reflexivity|]. split; [vm_compute; reflexivity|].
  split; vm_compute; reflexivity.
Qed.

(** ** What a run depends on *)

Section SameDraws.

Variables rs1 rs2 : RandomSource.
Hypothesis Hsame : same_draws rs1 rs2.

Lemma random_choice_same_draws {A} (seq : list A) s :
  random_choice (rs := rs1) seq s = random_choice (rs := rs2) seq s.
Proof. unfold random_choice. by rewrite (proj1 Hsame). Qed.

Lemma choose_opinion_same_draws clo dist tied low s :
  choose_opinion (rs := rs1) clo dist tied low s
  = choose_opinion (rs := rs2) clo dist tied low s.
Proof.
  unfold choose_opinion, random_random.
  destruct (truthy clo); simpl; rewrite !(proj2 Hsame);
    by rewrite !random_choice_same_draws.
Qed.

Lemma determine_opinion_same_draws ref self s :
  determine_opinion (rs := rs1) ref self s = determine_opinion (rs := rs2) ref self s.
Proof.
  unfold determine_opinion. destruct (check_cultists self _) as [clo dist].
  by rewrite choose_opinion_same_draws.
Qed.

Lemma do_each_same_method m1 m2 refs s :
  (∀ ref self s', m1 ref self s' = m2 ref self s') →
  do_each m1 refs s = do_each m2 refs s.
Proof.
  intros Hm. revert s. induction refs as [|ref refs IH]; intros s; [done|].
  simpl. unfold call. destruct (_grid s !! ref) as [self|].
  - rewrite Hm. destruct (m2 ref self s); simpl; [apply IH | done].
  - simpl. apply IH.
Qed.

Lemma step_same_draws s : step (rs := rs1) s = step (rs := rs2) s.
Proof.
  unfold step, agents_do.
  rewrite (do_each_same_method _ (determine_opinion (rs := rs2)))
    by apply determine_opinion_same_draws.
  destruct (do_each determine_opinion (agents s) s) as [s1|]; simpl; [|done].
  destruct (do_each assume_opinion (agents s1) s1) as [s2|]; simpl; [|done].
  case_decide; [|done].
  unfold manipulate_random_cell. by rewrite random_choice_same_draws.
Qed.

Lemma place_cells_same_draws coords s :
  place_cells (rs := rs1) coords s = place_cells (rs := rs2) coords s.
Proof.
  revert s. induction coords as [|[row col] coords IH]; intros s; [done|].
  simpl. rewrite (proj1 Hsame). apply IH.
Qed.

(** Runs on the same draws agree, step by step. *)
Lemma run_same_draws n s : run (rs := rs1) n s = run (rs := rs2) n s.
Proof.
  revert s. induction n as [|n IH]; intros s; [done|].
  simpl. rewrite step_same_draws. destruct (step s); simpl; [apply IH | done].
Qed.

Lemma init_same_draws w h :
  ColorPatches_init (rs := rs1) w h = ColorPatches_init (rs := rs2) w h.
Proof.
  unfold ColorPatches_init, populate. by rewrite place_cells_same_draws, step_same_draws.
Qed.

End SameDraws.

(** ** Further properties: the tally and the tie lists *)

Lemma counter_incr_keys k (c : Counter) :
  (counter_incr k c).*1 = if decide (k ∈ c.*1) then c.*1 else c.*1 ++ [k].
Proof.
  induction c as [|[k' n] c IH].
  - case_decide as Hin; [|reflexivity]. rewrite fmap_nil in Hin. by apply elem_of_nil in Hin.
  - cbn [counter_incr]. destruct (decide (k = k')) as [->|Hne].
    + rewrite !fmap_cons. cbn [fst]. rewrite decide_True; [done|]. by left.
    + rewrite !fmap_cons. cbn [fst]. rewrite IH.
      destruct (decide (k ∈ c.*1)) as [Hin|Hnin].
      * rewrite decide_True; [done|]. by right.
      * rewrite decide_False; [done|]. by intros [?|?]%elem_of_cons.
Qed.

Lemma Counter_of_keys l :
  NoDup (Counter_of l).*1 ∧ ∀ k, k ∈ (Counter_of l).*1 ↔ k ∈ l.
Proof.
  unfold Counter_of.
  assert (∀ c : Counter, NoDup c.*1 →
    NoDup (foldl (λ c k, counter_incr k c) c l).*1 ∧
    ∀ k, k ∈ (foldl (λ c k, counter_incr k c) c l).*1 ↔ k ∈ c.*1 ∨ k ∈ l) as Hgen.
  { induction l as [|x l IH]; intros c Hc; simpl.
    - split; [done|]. intros k. split; [auto|]. by intros [?|?%elem_of_nil].
    - destruct (IH (counter_incr x c)) as [Hnd Hk].
      { rewrite counter_incr_keys. case_decide; [done|].
        apply NoDup_app. split; [done|]. split; [|apply NoDup_singleton].
        by intros y Hy ->%list_elem_of_singleton. }
      split; [done|]. intros k. rewrite Hk, counter_incr_keys, elem_of_cons.
      case_decide as Hx.
      + split; [intros [?|?]; auto|]. intros [?|[->|?]]; auto.
      + rewrite elem_of_app, list_elem_of_singleton. tauto. }
  destruct (Hgen [] (NoDup_nil_2)) as [Hnd Hk]. split; [done|].
  intros k. rewrite Hk. split; [by intros [?%elem_of_nil|?] | auto].
Qed.

Lemma counter_get_elem (c : Counter) k n :
  NoDup c.*1 → (k, n) ∈ c ↔ k ∈ c.*1 ∧ counter_get c k = n.
Proof.
  induction c as [|[k' n'] c IH]; intros Hnd; simpl.
  - split; [by intros ?%elem_of_nil | by intros [?%elem_of_nil _]].
  - apply NoDup_cons in Hnd as [Hk' Hnd]. rewrite !elem_of_cons, (IH Hnd).
    destruct (decide (k = k')) as [->|Hne].
    + split.
      * intros [[= <-]|[? _]]; [auto | done].
      * intros [_ <-]. by left.
    + split.
      * intros [[= ? ?]|[? ?]]; [done | auto].
      * intros [[?|?] ?]; [done | auto].
Qed.

(** The tally has one entry for each opinion polled, with the number of
    times it was polled. *)
Lemma elem_of_Counter_of l k n :
  (k, n) ∈ Counter_of l ↔ k ∈ l ∧ n = count_of k l.
Proof.
  destruct (Counter_of_keys l) as [Hnd Hk].
  rewrite (counter_get_elem _ _ _ Hnd), Hk, counter_get_Counter_of.
  unfold count_of. split; intros [? ?]; auto.
Qed.

Lemma insert_by_count_perm e (l : Counter) : insert_by_count e l ≡ₚ e :: l.
Proof.
  induction l as [|e' l IH]; simpl; [done|].
  destruct (e.2 <? e'.2)%nat; [|done]. rewrite IH. apply perm_swap.
Qed.

Lemma most_common_perm (c : Counter) : most_common c ≡ₚ c.
Proof.
  induction c as [|e c IH]; simpl; [done|].
  by rewrite insert_by_count_perm, IH.
Qed.

Lemma insert_by_count_sorted e (l : Counter) :
  StronglySorted count_ge l → StronglySorted count_ge (insert_by_count e l).
Proof.
  induction l as [|e' l IH]; intros Hs; simpl.
  - repeat constructor.
  - apply StronglySorted_inv in Hs as [Hs Hall].
    destruct (e.2 <? e'.2)%nat eqn:Hlt.
    + apply Nat.ltb_lt in Hlt. constructor; [by apply IH|].
      rewrite insert_by_count_perm. constructor; [unfold count_ge; lia | done].
    + apply Nat.ltb_ge in Hlt. constructor; [by constructor|].
      constructor; [done|]. eapply Forall_impl; [exact Hall|].
      unfold count_ge. intros; simpl in *; lia.
Qed.

Lemma most_common_sorted (c : Counter) : StronglySorted count_ge (most_common c).
Proof.
  induction c as [|e c IH]; simpl; [constructor | by apply insert_by_count_sorted].
Qed.

Lemma sorted_head_greatest (l : Counter) first e :
  StronglySorted count_ge l → head l = Some first → e ∈ l → (e.2 ≤ first.2)%nat.
Proof.
  intros Hs Hh He. destruct l as [|x l]; [done|]. injection Hh as ->.
  apply StronglySorted_inv in Hs as [_ Hall].
  apply elem_of_cons in He as [->|He]; [done|].
  by apply (proj1 (Forall_forall _ _) Hall).
Qed.

Lemma sorted_last_least (l : Counter) lowest e :
  StronglySorted count_ge l → last l = Some lowest → e ∈ l → (lowest.2 ≤ e.2)%nat.
Proof.
  induction l as [|x l IH]; intros Hs Hl He; [done|].
  apply StronglySorted_inv in Hs as [Hs Hall].
  destruct l as [|y l].
  - injection Hl as ->. by apply list_elem_of_singleton in He as ->.
  - rewrite last_cons_cons in Hl.
    apply elem_of_cons in He as [->|He]; [|by apply IH].
    apply (proj1 (Forall_forall _ _) Hall). by eapply last_Some_elem_of.
Qed.

(** Lines 55-62 on any tally: [tied_opinions] holds exactly the
    entries whose count no entry exceeds, and [low_tied_opinions] exactly
    those whose count no entry falls below. *)
Lemma tie_lists_extremal (c : Counter) e :
  (e ∈ tied_opinions (most_common c) ↔ e ∈ c ∧ ∀ e', e' ∈ c → (e'.2 ≤ e.2)%nat) ∧
  (e ∈ low_tied_opinions (most_common c) ↔ e ∈ c ∧ ∀ e', e' ∈ c → (e.2 ≤ e'.2)%nat).
Proof.
  pose proof (most_common_perm c) as Hp. pose proof (most_common_sorted c) as Hs.
  unfold tied_opinions, low_tied_opinions. split.
  - destruct (head (most_common c)) as [first|] eqn:Hh.
    + rewrite list_elem_of_filter, Hp. split.
      * intros [Heq He]. split; [done|]. intros e' He'. rewrite Heq.
        eapply sorted_head_greatest; [done..|]. by rewrite Hp.
      * intros [He Hmax]. split; [|done].
        assert (first ∈ c) as Hf by (rewrite <- Hp; by apply head_Some_elem_of).
        apply Nat.le_antisymm; [|by apply Hmax].
        eapply sorted_head_greatest; [done..|]. by rewrite Hp.
    + apply head_None in Hh. rewrite Hh in Hp. apply Permutation_nil_l in Hp as <-.
      split; [by intros ?%elem_of_nil | by intros [?%elem_of_nil _]].
  - destruct (last (most_common c)) as [lowest|] eqn:Hl.
    + rewrite list_elem_of_filter, Hp. split.
      * intros [Heq He]. split; [done|]. intros e' He'. rewrite Heq.
        eapply sorted_last_least; [done..|]. by rewrite Hp.
      * intros [He Hmin]. split; [|done].
        assert (lowest ∈ c) as Hf by (rewrite <- Hp; by eapply last_Some_elem_of).
        apply Nat.le_antisymm; [by apply Hmin|].
        eapply sorted_last_least; [done..|]. by rewrite Hp.
    + apply last_None in Hl. rewrite Hl in Hp. apply Permutation_nil_l in Hp as <-.
      split; [by intros ?%elem_of_nil | by intros [?%elem_of_nil _]].
Qed.

(** X1. The opinions [determine_opinion] may choose from when no leader
    prevails: an entry is in [tied_opinions] exactly when its opinion was
    polled, its count is the number of times it was polled, and no polled
    opinion was polled more often; it is in [low_tied_opinions] exactly
    when no polled opinion was polled less often. *)
Theorem tied_opinions_most_frequent (l : list (option Z)) k n :
  ((k, n) ∈ tied_opinions (most_common (Counter_of l)) ↔
   k ∈ l ∧ n = count_of k l ∧ ∀ k', k' ∈ l → (count_of k' l ≤ n)%nat) ∧
  ((k, n) ∈ low_tied_opinions (most_common (Counter_of l)) ↔
   k ∈ l ∧ n = count_of k l ∧ ∀ k', k' ∈ l → (n ≤ count_of k' l)%nat).
Proof.
  destruct (tie_lists_extremal (Counter_of l) (k, n)) as [Ht Hl].
  rewrite Ht, Hl, !elem_of_Counter_of. simpl. split.
  - split.
    + intros [[Hk Hn] Hmax]. split; [done|]. split; [done|]. intros k' Hk'.
      by apply (Hmax (k', count_of k' l)), elem_of_Counter_of.
    + intros (Hk & Hn & Hmax). split; [done|].
      intros [k' n'] [Hk' ->]%elem_of_Counter_of. by apply Hmax.
  - split.
    + intros [[Hk Hn] Hmin]. split; [done|]. split; [done|]. intros k' Hk'.
      by apply (Hmin (k', count_of k' l)), elem_of_Counter_of.
    + intros (Hk & Hn & Hmin). split; [done|].
      intros [k' n'] [Hk' ->]%elem_of_Counter_of. by apply Hmin.
Qed.

(** ** Further properties: where a new opinion comes from *)

Section Sources.

Context {rs : RandomSource}.

Lemma check_cultists_opinion self l :
  (check_cultists self l).1 = None ∨
  ∃ n, n ∈ l ∧ _is_cult_leader n = true ∧ (check_cultists self l).1 = _state n.
Proof.
  destruct (decide (Exists (λ m, _is_cult_leader m = true) l)) as [Hex|Hnex].
  - right. apply Exists_exists in Hex.
    destruct (check_cultists_spec self l) as (_ & _ & Hc).
    by destruct (Hc Hex) as [? _].
  - left. rewrite check_cultists_no_leader; [done|].
    apply Forall_forall. intros m Hm.
    destruct (_is_cult_leader m) eqn:E; [|done]. destruct Hnex.
    apply Exists_exists. eauto.
Qed.

(** What a call of [choose_opinion] returns and draws: the leader's
    opinion for one module-level draw, or the opinion of an entry of one of
    the tie lists for one model draw and one or two module-level draws. *)
Lemma choose_opinion_values clo dist tied low s next s' :
  choose_opinion clo dist tied low s = Ok (next, s') →
  (truthy clo = true ∧ next = clo ∧
   model_draws s' = model_draws s ∧ module_draws s' = S (module_draws s)) ∨
  ((∃ e, (e ∈ low ∨ e ∈ tied) ∧ next = e.1) ∧
   model_draws s' = S (model_draws s) ∧
   module_draws s' = ((if truthy clo then 2 else 1) + module_draws s)%nat).
Proof.
  unfold choose_opinion, random_random.
  destruct (truthy clo); [destruct (Qlt_bool _ (influence dist))|]; simpl.
  - intros [= <- <-]. left. by repeat split.
  - destruct (Qlt_bool _ _).
    + destruct (random_choice low _) as [[nb s3]|] eqn:E; [|done].
      simpl. intros [= <- <-]. apply random_choice_Ok in E as [Hin ->]. right.
      split; [exists nb; auto|]. by split.
    + destruct (random_choice tied _) as [[nb s3]|] eqn:E; [|done].
      simpl. intros [= <- <-]. apply random_choice_Ok in E as [Hin ->]. right.
      split; [exists nb; auto|]. by split.
  - destruct (Qlt_bool _ _).
    + destruct (random_choice low _) as [[nb s3]|] eqn:E; [|done].
      simpl. intros [= <- <-]. apply random_choice_Ok in E as [Hin ->]. right.
      split; [exists nb; auto|]. by split.
    + destruct (random_choice tied _) as [[nb s3]|] eqn:E; [|done].
      simpl. intros [= <- <-]. apply random_choice_Ok in E as [Hin ->]. right.
      split; [exists nb; auto|]. by split.
Qed.

Lemma tie_entry_polled (polled : list ColorCell) e :
  e ∈ low_tied_opinions (most_common (Counter_of (get_state <$> polled))) ∨
  e ∈ tied_opinions (most_common (Counter_of (get_state <$> polled))) →
  ∃ n, n ∈ polled ∧ _state n = e.1.
Proof.
  destruct (tie_lists_extremal (Counter_of (get_state <$> polled)) e) as [Ht Hl].
  intros He.
  assert (e ∈ Counter_of (get_state <$> polled)) as Hin.
  { destruct He as [He|He]; [by apply Hl in He as [? _] | by apply Ht in He as [? _]]. }
  destruct e as [k c]. apply elem_of_Counter_of in Hin as [Hk _].
  apply list_elem_of_fmap in Hk as (n & -> & Hn). eauto.
Qed.

(** The pending opinion a returning call stores is the current opinion of
    another cell, a Moore neighbour or a leader within Manhattan distance
    4. *)
Lemma determine_opinion_source s ref self s' :
  wf s → _grid s !! ref = Some self → determine_opinion ref self s = Ok s' →
  ∃ next, _grid s' = <[ref := with_next_state next self]> (_grid s) ∧
          opinion_source s ref next.
Proof.
  intros Hwf Hself. unfold determine_opinion.
  rewrite (wf_position s ref self Hwf Hself).
  set (polled := iter_neighbors s ref true false 1).
  set (scanned := iter_neighbors s ref false false 4).
  pose proof (check_cultists_opinion self scanned) as Hscan.
  destruct (check_cultists self scanned) as [clo dist]. simpl in Hscan.
  destruct (choose_opinion clo dist _ _ s) as [[next s1]|] eqn:E; [|done].
  simpl. intros [= <-]. exists next.
  pose proof (choose_opinion_frame _ _ _ _ _ _ _ E) as ((_ & _ & Hg & _) & _).
  split; [simpl; by rewrite Hg|].
  apply choose_opinion_values in E as [(Ht & -> & _)|((e & He & ->) & _)].
  - destruct Hscan as [->|(n & Hn & Hlead & ->)]; [done|].
    apply elem_of_iter_neighbors in Hn as (q & Hq & _ & Hm & Hne); [|done].
    exists q, n. repeat split; auto.
  - apply tie_entry_polled in He as (n & Hn & Hst).
    apply elem_of_iter_neighbors in Hn as (q & Hq & Hc & _ & Hne); [|done].
    exists q, n. repeat split; auto. left. apply chebyshev_one. auto.
Qed.

(** X2. On a well-formed grid, the pending opinion a returning call of
    [determine_opinion] stores is the current opinion of another cell: of
    a Moore neighbour of the calling cell, or of a cult leader within
    Manhattan distance 4 of it.  No opinion is made up, and the cell's own
    opinion is no candidate.  When no other cell within Manhattan distance
    4 is a leader, it is the opinion of a Moore neighbour. *)
Theorem pending_opinion_has_source s ref self s' :
  wf s → _grid s !! ref = Some self → determine_opinion ref self s = Ok s' →
  ∃ next, _grid s' = <[ref := with_next_state next self]> (_grid s) ∧
          opinion_source s ref next ∧
          ((∀ q c, _grid s !! q = Some c → q ≠ ref → manhattan ref q ≤ 4 →
                   _is_cult_leader c = false) →
           ∃ q n, _grid s !! q = Some n ∧ chebyshev ref q = 1 ∧ _state n = next).
Proof.
  intros Hwf Hself Hcall.
  destruct (determine_opinion_source s ref self s' Hwf Hself Hcall) as (next & Hg & Hsrc).
  exists next. split; [done|]. split; [done|]. intros Hnolead.
  destruct Hsrc as (q & n & Hq & Hst & Hne & [Hc|[Hl Hm]]).
  - by exists q, n.
  - rewrite (Hnolead q n Hq Hne Hm) in Hl. done.
Qed.

Lemma with_next_state_committed v a b :
  committed a = committed b → with_next_state v a = with_next_state v b.
Proof. unfold committed. destruct a, b. simpl. by intros [= -> -> -> -> ->]. Qed.

Lemma opinion_source_committed s sk ref next :
  (∀ p, committed <$> (_grid sk !! p) = committed <$> (_grid s !! p)) →
  opinion_source sk ref next → opinion_source s ref next.
Proof.
  intros Hc (q & n & Hq & Hst & Hne & Hor).
  specialize (Hc q). rewrite Hq in Hc.
  destruct (_grid s !! q) as [n0|] eqn:Hn0; [|done].
  apply (inj Some) in Hc. unfold committed in Hc.
  exists q, n0. destruct n, n0. simplify_eq/=. by repeat split.
Qed.

(** The determine phase over a duplicate-free list of agents: every agent
    of the list ends with a pending opinion that was the opinion of
    another cell when the phase began. *)
Lemma determine_phase_pending refs s s1 ref self :
  wf s → NoDup refs → ref ∈ refs →
  do_each determine_opinion refs s = Ok s1 → _grid s !! ref = Some self →
  ∃ next, _grid s1 !! ref = Some (with_next_state next self) ∧
          opinion_source s ref next.
Proof.
  intros Hwf Hnd Hin H1 Hself.
  apply list_elem_of_split in Hin as (l1 & l2 & ->).
  apply NoDup_app in Hnd as (_ & _ & [Hnin2 _]%NoDup_cons).
  rewrite do_each_app in H1. apply bind_Ok in H1 as (sk & Hk & Hrest).
  simpl in Hrest. apply bind_Ok in Hrest as (sk' & Hcall & Hl2).
  pose proof (determine_phase_wf _ _ _ Hwf Hk) as Hwfk.
  pose proof (determine_phase_lookup _ _ _ ref Hk) as Hck. rewrite Hself in Hck.
  destruct (_grid sk !! ref) as [selfk|] eqn:Hselfk; [|done].
  apply (inj Some) in Hck.
  unfold call in Hcall. rewrite Hselfk in Hcall.
  destruct (determine_opinion_source sk ref selfk sk' Hwfk Hselfk Hcall)
    as (next & Hg & Hsrc).
  exists next. split.
  - rewrite (determine_phase_other l2 sk' s1 ref Hnin2 Hl2), Hg, lookup_insert_eq.
    by rewrite (with_next_state_committed next selfk self).
  - eapply opinion_source_committed; [|done].
    intros p. by eapply determine_phase_lookup.
Qed.

(** What a returning step makes of the cell at [ref]: the cell with a
    sourced pending opinion, committed; designated a leader on top of that
    only on a step whose number is a multiple of 100. *)
Lemma step_cell s s' ref self :
  wf s → step s = Ok s' → _grid s !! ref = Some self →
  ∃ next, opinion_source s ref next ∧
    (_grid s' !! ref = Some (commit (with_next_state next self)) ∨
     ((_steps s + 1) `mod` 100 = 0 ∧
      _grid s' !! ref = Some (designate (commit (with_next_state next self))))).
Proof.
  intros Hwf Hstep Hself.
  apply step_phases in Hstep as (s1 & s2 & H1 & H2 & H3). unfold agents_do in *.
  assert (ref ∈ agents s) as Hin.
  { rewrite (proj1 Hwf). apply elem_of_coord_iter. apply (wf_is_Some s ref Hwf). eauto. }
  assert (NoDup (agents s)) as Hnd by (rewrite (proj1 Hwf); apply NoDup_coord_iter).
  destruct (determine_phase_pending _ _ _ ref self Hwf Hnd Hin H1 Hself)
    as (next & Hs1 & Hsrc).
  exists next. split; [done|].
  pose proof (determine_phase_committed _ _ _ H1) as (_ & _ & Hag1 & Hst1 & _).
  destruct (assume_phase (agents s1) s1) as (s2' & H2' & _ & _ & _ & Hst2 & _ & _ & Hg2).
  rewrite H2' in H2. injection H2 as ->.
  assert (_grid s2 !! ref = Some (commit (with_next_state next self))) as Hs2.
  { rewrite Hg2, decide_True, Hs1 by (by rewrite Hag1). done. }
  rewrite Hst2, Hst1 in H3.
  destruct (decide ((_steps s + 1) `mod` 100 = 0)) as [Hmod|Hmod].
  - apply manipulate_random_cell_Ok in H3 as (pos & agent & _ & Hagent & -> & _).
    simpl in Hagent. destruct (decide (pos = ref)) as [->|Hpos].
    + right. split; [done|]. rewrite lookup_insert_eq.
      rewrite Hs2 in Hagent. by injection Hagent as <-.
    + left. by rewrite lookup_insert_ne.
  - left. by subst s'.
Qed.

End Sources.

(** ** Further properties: what a step keeps *)

Section Steps.

Context {rs : RandomSource}.

Lemma designate_state c : _state (designate c) = Some 16.
Proof. done. Qed.

(** After a returning step every opinion held is 16 or was held, by some
    cell, before the step. *)
Lemma step_opinions_from_before s s' p c' :
  wf s → step s = Ok s' → _grid s' !! p = Some c' →
  _state c' = Some 16 ∨ ∃ q c, _grid s !! q = Some c ∧ _state c = _state c'.
Proof.
  intros Hwf Hstep Hc'.
  pose proof (step_lookup _ _ p Hstep) as Hev. rewrite Hc' in Hev.
  inversion Hev as [self ? _ Hself|]; subst. symmetry in Hself.
  destruct (step_cell s s' p self Hwf Hstep Hself)
    as (next & (q & n & Hq & Hst & _) & [Hp|[_ Hp]]);
    rewrite Hc' in Hp; injection Hp as ->; [|by left].
  right. unfold commit. simpl. destruct (_is_cult_leader self); simpl; eauto.
Qed.

(** X3. Every cell of a reachable model holds an opinion, and it is one of
    [0..16]: the opinion is never [None] and never leaves the range of
    [OPINIONS]. *)
Theorem opinions_stay_in_range s :
  reachable s →
  map_Forall (λ _ c, ∃ v, _state c = Some v ∧ 0 ≤ v ≤ 16) (_grid s).
Proof.
  induction 1 as [w h|s s' Hr IH Hstep].
  - intros p c Hc. apply populate_cells in Hc as (_ & _ & v & Hv & Hrange).
    exists v. split; [done|lia].
  - intros p c' Hc'.
    destruct (step_opinions_from_before s s' p c' (reachable_wf s Hr) Hstep Hc')
      as [->|(q & c & Hq & <-)].
    + exists 16. split; [done|lia].
    + by apply (IH q).
Qed.

(** X4. However many steps are run from a well-formed model, no opinion
    appears that was not there: every opinion held afterwards is 16, the
    opinion of designated leaders, or was held by some cell at the
    start. *)
Theorem run_invents_no_opinion n s s' p c' :
  wf s → run n s = Ok s' → _grid s' !! p = Some c' →
  _state c' = Some 16 ∨ ∃ q c, _grid s !! q = Some c ∧ _state c = _state c'.
Proof.
  revert s. induction n as [|n IH]; intros s Hwf; simpl.
  - intros [= <-] Hc'. right. eauto.
  - intros (s1 & Hstep & Hrun)%bind_Ok Hc'.
    destruct (IH s1 (wf_step s s1 Hwf Hstep) Hrun Hc') as [?|(q1 & c1 & Hq1 & Hst1)];
      [by left|].
    destruct (step_opinions_from_before s s1 q1 c1 Hwf Hstep Hq1)
      as [H16|(q & c & Hq & Hst)].
    + left. congruence.
    + right. exists q, c. split; [done|congruence].
Qed.

(** X5. When a step on a well-formed model has returned, the opinion of
    every cell that is no leader is the pending opinion this step stored
    in it. *)
Theorem committed_opinion_is_pending s s' p c' :
  wf s → step s = Ok s' → _grid s' !! p = Some c' → _is_cult_leader c' = false →
  _state c' = _next_state c' ∧ opinion_source s p (_state c').
Proof.
  intros Hwf Hstep Hc' Hnl.
  pose proof (step_lookup _ _ p Hstep) as Hev. rewrite Hc' in Hev.
  inversion Hev as [self ? _ Hself|]; subst. symmetry in Hself.
  destruct (step_cell s s' p self Hwf Hstep Hself) as (next & Hsrc & [Hp|[_ Hp]]);
    rewrite Hc' in Hp; injection Hp as ->; [|done].
  destruct self as [? ? ? ? ? []]; unfold commit in *; simpl in *; [done|].
  by split.
Qed.

(** Neither phase touches a leader flag. *)
Lemma phases_keep_leader_flags s s1 s2 p :
  agents_do determine_opinion s = Ok s1 → agents_do assume_opinion s1 = Ok s2 →
  _is_cult_leader <$> (_grid s2 !! p) = _is_cult_leader <$> (_grid s !! p).
Proof.
  unfold agents_do. intros H1 H2.
  pose proof (determine_phase_lookup _ _ _ p H1) as Hc.
  destruct (assume_phase (agents s1) s1) as (s2' & H2' & _ & _ & _ & _ & _ & _ & Hg2).
  rewrite H2' in H2. injection H2 as ->. rewrite Hg2.
  assert (_is_cult_leader <$> (_grid s1 !! p) = _is_cult_leader <$> (_grid s !! p)) as <-.
  { destruct (_grid s1 !! p) as [c1|], (_grid s !! p) as [c|]; try done.
    apply (inj Some) in Hc. unfold committed in Hc. simpl.
    injection Hc as _ _ _ _ Hl. by rewrite Hl. }
  case_decide; [|done]. clear Hc. destruct (_grid s1 !! p) as [c1|]; [|reflexivity].
  simpl. f_equal. unfold commit. by destruct c1 as [? ? ? ? ? []].
Qed.

Lemma phases_frame s s1 s2 :
  agents_do determine_opinion s = Ok s1 → agents_do assume_opinion s1 = Ok s2 →
  _steps s2 = _steps s ∧ width s2 = width s ∧ height s2 = height s.
Proof.
  unfold agents_do. intros H1 H2.
  pose proof (determine_phase_committed _ _ _ H1) as (Hw1 & Hh1 & _ & Hst1 & _).
  destruct (assume_phase (agents s1) s1) as (s2' & H2' & Hw2 & Hh2 & _ & Hst2 & _).
  rewrite H2' in H2. injection H2 as ->. repeat split; congruence.
Qed.

(** X6. A step whose number is no multiple of 100 designates nobody: every
    cell is a leader after the step exactly if it was one before. *)
Theorem no_designation_between_hundreds s s' p :
  step s = Ok s' → (_steps s + 1) `mod` 100 ≠ 0 →
  _is_cult_leader <$> (_grid s' !! p) = _is_cult_leader <$> (_grid s !! p).
Proof.
  intros (s1 & s2 & H1 & H2 & H3)%step_phases Hmod.
  pose proof (phases_keep_leader_flags s s1 s2 p H1 H2) as <-.
  destruct (phases_frame s s1 s2 H1 H2) as (Hst & _).
  rewrite Hst in H3. rewrite decide_False in H3 by done. by subst s'.
Qed.

(** X7. A returning step whose number is a multiple of 100 designates one
    cell of the grid: that cell is a leader holding 16 afterwards, and
    every other cell is a leader exactly if it was one before. *)
Theorem one_designation_per_hundred s s' :
  step s = Ok s' → (_steps s + 1) `mod` 100 = 0 →
  ∃ pos c, pos ∈ Mesa.coord_iter (width s) (height s) ∧
    _grid s' !! pos = Some c ∧ _is_cult_leader c = true ∧ _state c = Some 16 ∧
    ∀ p, p ≠ pos →
      _is_cult_leader <$> (_grid s' !! p) = _is_cult_leader <$> (_grid s !! p).
Proof.
  intros (s1 & s2 & H1 & H2 & H3)%step_phases Hmod.
  destruct (phases_frame s s1 s2 H1 H2) as (Hst & Hw & Hh).
  rewrite Hst in H3. rewrite decide_True in H3 by done.
  apply manipulate_random_cell_Ok in H3 as (pos & agent & Hin & _ & Hg & _).
  simpl in Hin. rewrite Hw, Hh in Hin.
  exists pos, (designate agent). split; [done|].
  rewrite Hg. simpl. rewrite lookup_insert_eq. repeat split.
  intros p Hne. rewrite lookup_insert_ne by done.
  by apply phases_keep_leader_flags with s1.
Qed.

(** X8. No reachable model has a leader before its step counter reaches
    100, and the counter is never negative: [__init__] runs the first
    step, so the first leader appears in the 99th call of [step] after
    it. *)
Theorem no_leader_before_step_100 s :
  reachable s → 0 ≤ _steps s ∧ (_steps s < 100 → no_leaders s).
Proof.
  induction 1 as [w h|s s' Hr [IH0 IH] Hstep].
  - split.
    + unfold populate.
      destruct (place_cells_frame (Mesa.coord_iter w h) (empty_model w h))
        as (_ & _ & -> & _). done.
    + intros _ p c Hc. by apply populate_cells in Hc as (? & _).
  - pose proof (step_frame _ _ Hstep) as (_ & _ & _ & Hst & _).
    split; [lia|]. intros Hlt p c' Hc'.
    assert ((_steps s + 1) `mod` 100 ≠ 0) as Hmod.
    { rewrite Z.mod_small by lia. lia. }
    apply step_phases in Hstep as (s1 & s2 & H1 & H2 & H3).
    pose proof (phases_keep_leader_flags s s1 s2 p H1 H2) as Hfl.
    destruct (phases_frame s s1 s2 H1 H2) as (Hst2 & _).
    rewrite Hst2, decide_False in H3 by done. subst s'. simpl in Hc'.
    rewrite Hc' in Hfl. destruct (_grid s !! p) as [c|] eqn:Hc; [|done].
    simpl in Hfl. injection Hfl as ->. apply (IH ltac:(lia) p c Hc).
Qed.

End Steps.

(** ** Further properties: when a run returns and when it raises *)

Section Runs.

Context {rs : RandomSource}.

Lemma populate_frame w h :
  width (populate w h) = w ∧ height (populate w h) = h ∧ _steps (populate w h) = 0 ∧
  module_draws (populate w h) = 0%nat ∧ agents (populate w h) = Mesa.coord_iter w h.
Proof.
  unfold populate.
  by destruct (place_cells_frame (Mesa.coord_iter w h) (empty_model w h))
    as (-> & -> & -> & -> & -> & _).
Qed.

Lemma run_add n m s : run (n + m) s = run n s ≫= run m.
Proof.
  revert s. induction n as [|n IH]; intros s; simpl; [done|].
  destruct (step s) as [s1|]; simpl; [apply IH | done].
Qed.

Lemma run_returns n s :
  wf s → 1 < width s ∨ 1 < height s → 0 < width s → 0 < height s →
  ∃ s', run n s = Ok s'.
Proof.
  revert s. induction n as [|n IH]; intros s Hwf Hsize Hw Hh; simpl; [eauto|].
  destruct (step_returns s Hwf Hsize Hw Hh) as [s1 Hstep]. rewrite Hstep. simpl.
  pose proof (step_frame _ _ Hstep) as (Hw1 & Hh1 & _).
  apply IH; [by eapply wf_step | by rewrite Hw1, Hh1 | lia | lia].
Qed.

(** X9. On a grid of at least two cells the model never raises: whatever
    the random source, [__init__] returns and so does every further
    [step]. *)
Theorem model_of_two_cells_never_raises w h :
  0 < w → 0 < h → 1 < w ∨ 1 < h →
  ∃ s0, ColorPatches_init w h = Ok s0 ∧ ∀ n, ∃ s, run n s0 = Ok s.
Proof.
  intros Hw Hh Hsize.
  destruct (populate_frame w h) as (Hpw & Hph & _).
  pose proof (wf_populate w h) as Hwf.
  destruct (step_returns (populate w h) Hwf) as [s0 Hstep]; [by rewrite Hpw, Hph|lia..|].
  exists s0. split; [done|]. intros n.
  pose proof (step_frame _ _ Hstep) as (Hw0 & Hh0 & _).
  apply run_returns; [by eapply wf_step | by rewrite Hw0, Hh0, Hpw, Hph | lia | lia].
Qed.

(** The model of a single cell cannot be built: whatever the random
    source, [__init__] raises [IndexError] on the one-by-one grid. *)
Lemma single_cell_model_raises : ColorPatches_init 1 1 = Raise IndexError.
Proof.
  unfold ColorPatches_init.
  destruct (populate_frame 1 1) as (Hpw & Hph & _).
  pose proof (wf_populate 1 1) as Hwf.
  assert (is_Some (_grid (populate 1 1) !! (0, 0))) as [c Hc].
  { apply (wf_is_Some _ _ Hwf). rewrite Hpw, Hph. simpl. lia. }
  apply (step_single_raises _ (0, 0) c); [done|lia|lia|done].
Qed.

(** X10. On a well-formed grid that has a cell, [step] returns exactly if
    the grid has more than one cell; on the grid of a single cell it
    raises [IndexError], whatever the random source. *)
Theorem step_returns_iff_two_cells s :
  wf s → 0 < width s → 0 < height s →
  ((∃ s', step s = Ok s') ↔ 1 < width s ∨ 1 < height s) ∧
  (width s = 1 → height s = 1 → step s = Raise IndexError).
Proof.
  intros Hwf Hw Hh.
  assert (is_Some (_grid s !! (0, 0))) as [c Hc].
  { apply (wf_is_Some _ _ Hwf). simpl. lia. }
  split; [split|].
  - intros [s' Hstep].
    destruct (decide (1 < width s)); [by left|].
    destruct (decide (1 < height s)); [by right|].
    rewrite (step_single_raises s (0, 0) c) in Hstep; [done|done|lia|lia|done].
  - intros Hsize. by apply step_returns.
  - intros Hw1 Hh1. apply (step_single_raises s (0, 0) c); [done|lia|lia|done].
Qed.

Lemma coord_iter_empty w h : w ≤ 0 ∨ h ≤ 0 → Mesa.coord_iter w h = [].
Proof.
  intros Hwh. destruct (Mesa.coord_iter w h) as [|p l] eqn:E; [done|].
  assert (p ∈ Mesa.coord_iter w h) as Hp by (rewrite E; by left).
  apply elem_of_coord_iter in Hp. lia.
Qed.

Lemma with_steps_with_steps a b s : with_steps a (with_steps b s) = with_steps a s.
Proof. done. Qed.

(** A step of a model without cells only counts, until the perturbation
    finds no cell to choose from. *)
Lemma step_no_cells s :
  agents s = [] → Mesa.coord_iter (width s) (height s) = [] →
  step s = if decide ((_steps s + 1) `mod` 100 = 0)
           then Raise IndexError else Ok (with_steps (_steps s + 1) s).
Proof.
  intros Ha Hc. unfold step, agents_do. rewrite Ha. simpl. rewrite Ha. simpl.
  case_decide; [|done]. unfold manipulate_random_cell, random_choice. simpl.
  by rewrite Hc.
Qed.

Lemma run_no_cells n s :
  agents s = [] → Mesa.coord_iter (width s) (height s) = [] → 0 ≤ _steps s →
  _steps s + Z.of_nat n < 100 →
  run n s = Ok (with_steps (_steps s + Z.of_nat n) s).
Proof.
  revert s. induction n as [|n IH]; intros s Ha Hc H0 Hlt; simpl.
  - rewrite Z.add_0_r. by destruct s.
  - rewrite (step_no_cells s Ha Hc), decide_False by (rewrite Z.mod_small; lia).
    simpl. rewrite IH; simpl; try done; try lia.
    f_equal. rewrite with_steps_with_steps. f_equal. lia.
Qed.

(** X11. A grid without cells ([width] or [height] zero): the model is
    built and steps 2 to 99 only count, and the hundredth step raises
    [IndexError], the perturbation having no cell to choose. *)
Theorem empty_grid_raises_at_step_100 w h :
  0 ≤ w → 0 ≤ h → w = 0 ∨ h = 0 →
  ColorPatches_init w h = Ok (with_steps 1 (empty_model w h)) ∧
  (∀ n, (n < 99)%nat →
     run n (with_steps 1 (empty_model w h))
     = Ok (with_steps (1 + Z.of_nat n) (empty_model w h))) ∧
  run 99 (with_steps 1 (empty_model w h)) = Raise IndexError.
Proof.
  intros Hw0 Hh0 Hwh.
  assert (Mesa.coord_iter w h = []) as Hc by (apply coord_iter_empty; lia).
  assert (∀ n, (n < 99)%nat →
     run n (with_steps 1 (empty_model w h))
     = Ok (with_steps (1 + Z.of_nat n) (empty_model w h))) as Hrun.
  { intros n Hn. rewrite run_no_cells; simpl; try done; lia. }
  split; [|split; [done|]].
  - unfold ColorPatches_init, populate. rewrite Hc. simpl.
    by rewrite (step_no_cells (empty_model w h)).
  - change 99%nat with (98 + 1)%nat. rewrite run_add, Hrun by lia. simpl.
    by rewrite (step_no_cells (with_steps (1 + Z.of_nat 98) (empty_model w h)) eq_refl Hc).
Qed.

(** X12. Once a leader, always a leader: over any number of steps from a
    reachable model, a cell that is a cult leader stays one, holding 16
    before and after. *)
Theorem leaders_persist n s s' p c :
  reachable s → run n s = Ok s' → _grid s !! p = Some c → _is_cult_leader c = true →
  _state c = Some 16 ∧
  ∃ c', _grid s' !! p = Some c' ∧ _is_cult_leader c' = true ∧ _state c' = Some 16.
Proof.
  intros Hr Hrun Hc Hl.
  split; [by apply (reachable_leaders_hold_last s Hr p)|].
  revert s c Hr Hrun Hc Hl. induction n as [|n IH]; intros s c Hr; simpl.
  - intros [= <-] Hc Hl. exists c. split; [done|]. split; [done|].
    by apply (reachable_leaders_hold_last s Hr p).
  - intros (s1 & Hstep & Hrun)%bind_Ok Hc Hl.
    pose proof (step_lookup _ _ p Hstep) as Hev. rewrite Hc in Hev.
    inversion Hev as [c0 c1 Hcc Hc0 Hc1|]; subst. symmetry in Hc1.
    destruct (evolves_leader _ _ Hcc Hl) as [Hl1 _].
    by apply (IH s1 c1 (reachable_step s s1 Hr Hstep)).
Qed.

(** X13. Consensus is kept: on a well-formed grid of at least two cells
    without leaders whose cells all hold [V], the step returns and every
    cell holds [V] afterwards, but for the one cell the perturbation
    designates (holding 16), on a step whose number is a multiple of
    100. *)
Theorem consensus_is_kept s V :
  wf s → 0 < width s → 0 < height s → 1 < width s ∨ 1 < height s →
  (∀ p c, _grid s !! p = Some c → _state c = Some V ∧ _is_cult_leader c = false) →
  ∃ s', step s = Ok s' ∧
    ∀ p c', _grid s' !! p = Some c' →
      (_state c' = Some V ∧ _is_cult_leader c' = false) ∨
      ((_steps s + 1) `mod` 100 = 0 ∧ _is_cult_leader c' = true ∧ _state c' = Some 16).
Proof.
  intros Hwf Hw Hh Hsize Hall.
  destruct (step_returns s Hwf Hsize Hw Hh) as [s' Hstep].
  exists s'. split; [done|]. intros p c' Hc'.
  pose proof (step_lookup _ _ p Hstep) as Hev. rewrite Hc' in Hev.
  inversion Hev as [self ? _ Hself|]; subst. symmetry in Hself.
  destruct (Hall p self Hself) as [_ Hnl].
  destruct (step_cell s s' p self Hwf Hstep Hself)
    as (next & (q & n & Hq & Hst & _) & [Hp|[Hmod Hp]]);
    rewrite Hc' in Hp; injection Hp as ->.
  - left. destruct (Hall q n Hq) as [HV _].
    destruct self as [? ? ? ? ? []]; unfold commit; simpl in *; [done|].
    split; [congruence|done].
  - right. by repeat split.
Qed.

End Runs.

(** ** Further properties: draws, distances and the filled grid *)

Section Accounting.

Context {rs : RandomSource}.

Lemma no_leaders_scan s self pos :
  no_leaders s → check_cultists self (iter_neighbors s pos false false 4) = (None, 10000).
Proof.
  intros Hnl. apply check_cultists_no_leader, Forall_forall.
  intros n (q & _ & Hq)%list_elem_of_omap. by apply (Hnl q).
Qed.

Lemma determine_opinion_draws_no_leader ref self s s' :
  no_leaders s → determine_opinion ref self s = Ok s' →
  model_draws s' = S (model_draws s) ∧ module_draws s' = S (module_draws s).
Proof.
  intros Hnl. unfold determine_opinion. rewrite (no_leaders_scan s self _ Hnl).
  destruct (choose_opinion None 10000 _ _ s) as [[next s1]|] eqn:E; [|done].
  simpl. intros [= <-]. simpl.
  by apply choose_opinion_values in E as [(? & _)|(_ & ? & ?)].
Qed.

Lemma determine_phase_draws_no_leader refs s s1 :
  no_leaders s → Forall (λ ref, is_Some (_grid s !! ref)) refs →
  do_each determine_opinion refs s = Ok s1 →
  model_draws s1 = (model_draws s + length refs)%nat ∧
  module_draws s1 = (module_draws s + length refs)%nat.
Proof.
  revert s. induction refs as [|ref refs IH]; intros s Hnl Hall; simpl.
  - intros [= <-]. lia.
  - apply Forall_cons in Hall as [[self Hself] Hall].
    intros (sk & Hcall & Hrest)%bind_Ok.
    assert (do_each determine_opinion [ref] s = Ok sk) as Hone.
    { simpl. by destruct (call determine_opinion ref s); simplify_eq/=. }
    unfold call in Hcall. rewrite Hself in Hcall.
    apply determine_opinion_draws_no_leader in Hcall as [Hm Hd]; [|done].
    destruct (IH sk) as [-> ->]; [| |done|lia].
    + intros q c Hq. pose proof (determine_phase_lookup _ _ _ q Hone) as Hc.
      rewrite Hq in Hc. destruct (_grid s !! q) as [c0|] eqn:Hc0; [|done].
      apply (inj Some) in Hc. unfold committed in Hc.
      injection Hc as _ _ _ _ ->. by apply (Hnl q).
    + eapply Forall_impl; [exact Hall|]. intros q [c Hq]. simpl.
      pose proof (determine_phase_lookup _ _ _ q Hone) as Hc. rewrite Hq in Hc.
      by destruct (_grid sk !! q).
Qed.

(** X14. While the model has no leader, a returning step draws exactly one
    value per cell from each generator, and one more from [self.random]
    when its number is a multiple of 100. *)
Theorem draws_of_a_step_without_leaders s s' :
  wf s → no_leaders s → step s = Ok s' →
  module_draws s' = (module_draws s + length (agents s))%nat ∧
  model_draws s'
  = (model_draws s + length (agents s)
     + if decide ((_steps s + 1) `mod` 100 = 0)%Z then 1 else 0)%nat.
Proof.
  intros Hwf Hnl (s1 & s2 & H1 & H2 & H3)%step_phases.
  destruct (phases_frame s s1 s2 H1 H2) as (Hst & _). unfold agents_do in *.
  destruct (determine_phase_draws_no_leader (agents s) s s1 Hnl) as [Hm1 Hd1]; [|done|].
  { apply Forall_forall. intros q Hq. apply (wf_is_Some s q Hwf).
    rewrite (proj1 Hwf) in Hq. by apply elem_of_coord_iter. }
  destruct (assume_phase (agents s1) s1) as (s2' & H2' & _ & _ & _ & _ & Hm2 & Hd2 & _).
  rewrite H2' in H2. injection H2 as ->. rewrite Hst in H3.
  destruct (decide ((_steps s + 1) `mod` 100 = 0)).
  - apply manipulate_random_cell_Ok in H3 as (_ & _ & _ & _ & _ & _ & _ & _ & _ & Hm3 & Hd3).
    simpl in Hm3, Hd3. lia.
  - subst s'. simpl. lia.
Qed.


(** X16. The [unique_id] that [__init__] gives the cell at [(row, col)] is
    [row + col * row]: it is the same, 0, for all the cells with [row = 0],
    so that on a grid with [height] above 1 two cells share an id. *)
Theorem unique_id_is_shared w h :
  map_Forall (λ p c, unique_id c = p.1 + p.2 * p.1) (_grid (populate w h)) ∧
  (0 < w → 1 < h →
   ∃ c0 c1, _grid (populate w h) !! (0, 0) = Some c0 ∧
            _grid (populate w h) !! (0, 1) = Some c1 ∧
            unique_id c0 = unique_id c1).
Proof.
  assert (map_Forall (λ p c, unique_id c = p.1 + p.2 * p.1) (_grid (populate w h)))
    as Hid.
  { apply place_cells_Forall; [done|]. apply map_Forall_empty. }
  split; [done|]. intros Hw Hh.
  destruct (populate_frame w h) as (Hpw & Hph & _).
  pose proof (wf_populate w h) as Hwf.
  assert (is_Some (_grid (populate w h) !! (0, 0))) as [c0 Hc0].
  { apply (wf_is_Some _ _ Hwf). rewrite Hpw, Hph. simpl. lia. }
  assert (is_Some (_grid (populate w h) !! (0, 1))) as [c1 Hc1].
  { apply (wf_is_Some _ _ Hwf). rewrite Hpw, Hph. simpl. lia. }
  exists c0, c1. split; [done|]. split; [done|].
  by rewrite (Hid _ _ Hc0), (Hid _ _ Hc1).
Qed.

Lemma place_cells_draws coords s :
  model_draws (place_cells coords s) = (model_draws s + length coords)%nat.
Proof.
  revert s. induction coords as [|[row col] coords IH]; intros s; simpl; [lia|].
  rewrite IH. simpl. lia.
Qed.

Lemma length_coord_iter w h :
  length (Mesa.coord_iter w h) = (Z.to_nat w * Z.to_nat h)%nat.
Proof.
  unfold Mesa.coord_iter, range. rewrite !Z.sub_0_r.
  assert (∀ (x : Z) (ys : list Z),
            length (ys ≫= λ y, [(x, y)]) = length ys) as Hrow.
  { intros x ys. induction ys as [|y ys IH]; [done|]. csimpl. by rewrite IH. }
  rewrite <- (length_seqZ 0 w) at 1. rewrite <- (length_seqZ 0 h).
  induction (seqZ 0 w) as [|x xs IH]; [done|].
  csimpl. rewrite length_app, Hrow, IH. done.
Qed.

(** X17. What [__init__] has built before its first step: one cell on each
    of the [width * height] coordinates and nowhere else, registered in
    the order the grid enumerates them, each recording its coordinate and
    with no pending opinion; one value of [self.random] drawn per cell,
    none of the module-level generator, and the step counter at 0. *)
Theorem init_fills_the_grid w h :
  agents (populate w h) = Mesa.coord_iter w h ∧
  length (agents (populate w h)) = (Z.to_nat w * Z.to_nat h)%nat ∧
  (∀ p, is_Some (_grid (populate w h) !! p) ↔ 0 ≤ p.1 < w ∧ 0 ≤ p.2 < h) ∧
  map_Forall (λ p c, (_row c, _col c) = p ∧ _next_state c = None)
             (_grid (populate w h)) ∧
  model_draws (populate w h) = length (agents (populate w h)) ∧
  module_draws (populate w h) = 0%nat ∧ _steps (populate w h) = 0.
Proof.
  destruct (populate_frame w h) as (Hpw & Hph & Hst & Hd & Ha).
  pose proof (wf_populate w h) as Hwf.
  split; [done|]. split; [by rewrite Ha, length_coord_iter|]. split.
  { intros p. rewrite (wf_is_Some _ p Hwf). by rewrite Hpw, Hph. }
  split.
  { apply place_cells_Forall; [|apply map_Forall_empty]. by intros [] ? ?. }
  split; [|done]. rewrite Ha. unfold populate. by rewrite place_cells_draws.
Qed.

End Accounting.

(** ** Further properties: the polled cells *)

Section Polled.

Context {rs : RandomSource}.





Lemma omap_lookup_insert_ne (g : gmap Coordinate ColorCell) pos c (l : list Coordinate) :
  pos ∉ l → omap (λ p, <[pos := c]> g !! p) l = omap (λ p, g !! p) l.
Proof.
  induction l as [|q l IH]; [done|]. intros [Hne Hl]%not_elem_of_cons.
  csimpl. rewrite lookup_insert_ne by done. by rewrite IH.
Qed.

Lemma iter_neighbors_without_centre s pos c moore radius :
  iter_neighbors (with_grid (<[pos := c]> (_grid s)) s) pos moore false radius
  = iter_neighbors s pos moore false radius.
Proof.
  unfold iter_neighbors, with_grid. cbn [_grid width height].
  apply omap_lookup_insert_ne.
  intros (_ & _ & _ & Hne)%elem_of_get_neighborhood. by apply Hne.
Qed.

Lemma check_cultists_position a b l :
  _row a = _row b → _col a = _col b → check_cultists a l = check_cultists b l.
Proof.
  intros Hr Hc. unfold check_cultists. generalize (@None Z, 10000).
  induction l as [|n l IH]; intros acc; [done|]. simpl. rewrite IH. f_equal.
  unfold check_cultist. by rewrite Hr, Hc.
Qed.

(** X19. The calling cell plays no part in its own next opinion but for
    its position: on a well-formed grid, with any other cell at the same
    coordinate in its place (another opinion, pending opinion, leader flag
    or id), [determine_opinion] stores the same pending opinion and draws
    the same values. *)
Theorem own_cell_plays_no_part s ref self self' s1 :
  wf s → _grid s !! ref = Some self →
  _row self' = _row self → _col self' = _col self →
  determine_opinion ref self s = Ok s1 →
  ∃ next s1',
    determine_opinion ref self' (with_grid (<[ref := self']> (_grid s)) s) = Ok s1' ∧
    _grid s1 !! ref = Some (with_next_state next self) ∧
    _grid s1' !! ref = Some (with_next_state next self') ∧
    model_draws s1' = model_draws s1 ∧ module_draws s1' = module_draws s1.
Proof.
  intros Hwf Hself Hrow Hcol. unfold determine_opinion.
  rewrite Hrow, Hcol, (wf_position s ref self Hwf Hself).
  rewrite !iter_neighbors_without_centre.
  rewrite (check_cultists_position self' self) by done.
  destruct (check_cultists self _) as [clo dist].
  destruct (choose_opinion clo dist _ _ s) as [[next s1a]|] eqn:E; [|done].
  simpl. intros [= <-].
  destruct (choose_opinion_cursors _ _ _ _ s
              (with_grid (<[ref := self']> (_grid s)) s) _ _ eq_refl eq_refl E)
    as (s1b & E2 & Hm & Hd).
  rewrite E2. simpl. exists next. eexists. split; [done|].
  simpl. rewrite !lookup_insert_eq. by repeat split.
Qed.

End Polled.

(** ** Further properties: the commit phase and the perturbation *)

Section Perturbation.

Context {rs : RandomSource}.

(** X20. The commit phase on its own: it never raises, draws nothing,
    gives every registered cell that is no leader its pending opinion as
    opinion and leaves every other cell alone; run a second time, it
    changes nothing. *)
Theorem commit_phase_is_idempotent s :
  ∃ s1, agents_do assume_opinion s = Ok s1 ∧
    agents_do assume_opinion s1 = Ok s1 ∧
    model_draws s1 = model_draws s ∧ module_draws s1 = module_draws s ∧
    ∀ p c, _grid s !! p = Some c →
      _grid s1 !! p
      = Some (if decide (p ∈ agents s ∧ _is_cult_leader c = false)
              then with_state (_next_state c) c else c).
Proof.
  unfold agents_do.
  destruct (assume_phase (agents s) s) as (s1 & H1 & Hw & Hh & Ha & Hst & Hm & Hd & Hg).
  exists s1. split; [done|].
  destruct (assume_phase (agents s1) s1)
    as (s2 & H2 & Hw2 & Hh2 & Ha2 & Hst2 & Hm2 & Hd2 & Hg2).
  split; [|split; [done|split; [done|]]].
  - rewrite H2. f_equal.
    assert (_grid s2 = _grid s1) as Hgrid.
    { apply map_eq. intros p. rewrite Hg2, Ha, Hg.
      case_decide; [|done]. destruct (_grid s !! p); [|done].
      simpl. by rewrite commit_idemp. }
    destruct s1, s2. simpl in *. by subst.
  - intros p c Hc. rewrite Hg, Hc. unfold commit.
    destruct (decide (p ∈ agents s)) as [Hin|Hnin]; simpl.
    + destruct (_is_cult_leader c) eqn:Hl; simpl.
      * rewrite decide_False; [done|]. by intros [_ ?].
      * by rewrite decide_True.
    + rewrite decide_False; [done|]. by intros [? _].
Qed.

(** X21. What [manipulate_random_cell] does when it returns: it draws one
    value of [self.random] and none of the module-level generator, and
    touches the one cell it selects, a cell of the grid, which is a leader
    holding 16 afterwards with its pending opinion and position as before.
    Where every leader holds 16 and the selected cell is a leader already,
    the model is left as it was but for the draw. *)
Theorem manipulate_random_cell_effect s s' :
  manipulate_random_cell s = Ok s' →
  model_draws s' = S (model_draws s) ∧ module_draws s' = module_draws s ∧
  _steps s' = _steps s ∧
  ∃ pos agent c',
    pos ∈ Mesa.coord_iter (width s) (height s) ∧
    _grid s !! pos = Some agent ∧ _grid s' !! pos = Some c' ∧
    _is_cult_leader c' = true ∧ _state c' = Some 16 ∧
    _next_state c' = _next_state agent ∧ (_row c', _col c') = (_row agent, _col agent) ∧
    (∀ p, p ≠ pos → _grid s' !! p = _grid s !! p) ∧
    (leaders_hold_last s → _is_cult_leader agent = true →
     s' = with_model_draws (S (model_draws s)) s).
Proof.
  intros Hman.
  pose proof (manipulate_random_cell_Ok _ _ Hman)
    as (pos & agent & Hin & Hagent & Hg & Hw & Hh & Ha & Hst & Hm & Hd).
  split; [done|]. split; [done|]. split; [done|].
  exists pos, agent, (designate agent). split; [done|]. split; [done|].
  rewrite Hg, lookup_insert_eq. repeat split.
  - intros p Hne. by rewrite lookup_insert_ne.
  - intros Hlast Hlead.
    assert (designate agent = agent) as Hsame.
    { pose proof (Hlast pos agent Hagent Hlead) as H16.
      destruct agent. simpl in *. subst. done. }
    rewrite Hsame, insert_id in Hg by done.
    destruct s, s'. simpl in *. by subst.
Qed.

Lemma elem_of_leaders s p :
  p ∈ leaders s ↔ ∃ c, _grid s !! p = Some c ∧ _is_cult_leader c = true.
Proof.
  unfold leaders. rewrite elem_of_dom. unfold is_Some.
  setoid_rewrite map_lookup_filter_Some. simpl. done.
Qed.

Lemma leaders_flags s s' :
  (∀ p, _is_cult_leader <$> (_grid s' !! p) = _is_cult_leader <$> (_grid s !! p)) →
  leaders s' = leaders s.
Proof.
  intros Hfl. apply set_eq. intros p. rewrite !elem_of_leaders.
  specialize (Hfl p).
  destruct (_grid s' !! p) as [c'|], (_grid s !! p) as [c|]; try done.
  injection Hfl as Hfl.
  split; intros (? & [= <-] & ?); eexists; (split; [done|congruence]).
Qed.

(** X22. Leaders accumulate by at most one in a hundred steps: in every
    reachable model the number of cult leaders is at most the step counter
    divided by 100. *)
Theorem leaders_at_most_one_per_hundred s :
  reachable s → Z.of_nat (size (leaders s)) ≤ _steps s `div` 100.
Proof.
  intros Hr.
  assert (0 ≤ _steps s ∧ Z.of_nat (size (leaders s)) ≤ _steps s `div` 100) as [_ H];
    [|done].
  induction Hr as [w h|s s' Hr [IH0 IH] Hstep].
  - destruct (populate_frame w h) as (_ & _ & -> & _). split; [done|].
    assert (leaders (populate w h) = ∅) as ->; [|done].
    apply set_eq. intros p. rewrite elem_of_leaders. split; [|by intros ?%elem_of_empty].
    intros (c & Hc & Hl). apply populate_cells in Hc as (? & _). congruence.
  - pose proof (step_frame _ _ Hstep) as (_ & _ & _ & Hst & _).
    split; [lia|]. rewrite Hst.
    apply step_phases in Hstep as (s1 & s2 & H1 & H2 & H3).
    destruct (phases_frame s s1 s2 H1 H2) as (Hst2 & _). rewrite Hst2 in H3.
    assert (leaders s2 = leaders s) as Hl2.
    { apply leaders_flags. intros p. by apply phases_keep_leader_flags with s1. }
    destruct (decide ((_steps s + 1) `mod` 100 = 0)) as [Hmod|Hmod].
    + apply manipulate_random_cell_Ok in H3 as (pos & agent & _ & _ & Hg & _).
      assert (leaders s' ⊆ leaders s ∪ {[pos]}) as Hsub.
      { intros p (c & Hc & Hl)%elem_of_leaders. rewrite Hg in Hc. simpl in Hc.
        destruct (decide (p = pos)) as [->|Hne];
          [apply elem_of_union; right; by apply elem_of_singleton|].
        rewrite lookup_insert_ne in Hc by done.
        apply elem_of_union. left. rewrite <- Hl2. apply elem_of_leaders. eauto. }
      apply subseteq_size in Hsub.
      pose proof (size_union_alt (leaders s) {[pos]}) as Hu.
      assert (size ({[pos]} ∖ leaders s) ≤ 1)%nat as Hone.
      { etrans; [apply subseteq_size, (subseteq_difference_l _ {[pos]}); done|].
        by rewrite size_singleton. }
      assert ((_steps s + 1) `div` 100 = _steps s `div` 100 + 1) as ->; [|lia].
      clear -IH0 Hmod. Z.div_mod_to_equations. lia.
    + subst s'.
      assert (leaders (with_steps (_steps s + 1) s2) = leaders s) as -> by exact Hl2.
      assert ((_steps s + 1) `div` 100 = _steps s `div` 100) as ->; [|done].
      clear -IH0 Hmod. Z.div_mod_to_equations. lia.
Qed.

End Perturbation.

(** ** The further properties on concrete models *)

Lemma two_by_two_wf : wf two_by_two.
Proof. apply (bool_decide_unpack _). vm_compute. reflexivity. Defined.

Lemma two_by_two_first_step :
  step (rs := sample_source) two_by_two = Ok two_by_two_after_1.
Proof. vm_compute. reflexivity. Defined.


(** X2, at a corner of the two-by-two model. *)
Lemma pending_opinion_has_source_witness :
  wf two_by_two ∧
  ∃ next, opinion_source two_by_two (0, 0) next.
Proof.
  split; [exact two_by_two_wf|].
  destruct (pending_opinion_has_source (rs := sample_source) two_by_two (0, 0)
              (cell_at two_by_two (0, 0))
              (get_Ok (determine_opinion (rs := sample_source) (0, 0)
                         (cell_at two_by_two (0, 0)) two_by_two) two_by_two)
              two_by_two_wf) as (next & _ & Hsrc & _).
  - vm_compute. reflexivity.
  - vm_compute. reflexivity.
  - exists next. exact Hsrc.
Defined.

(** X3, at the two-by-two model after a hundred steps. *)
Lemma opinions_stay_in_range_witness :
  reachable (rs := sample_source) two_by_two_after_100 ∧
  ∃ v, _state designated_leader = Some v ∧ 0 ≤ v ≤ 16.
Proof.
  split; [exact two_by_two_after_100_reachable|].
  apply (opinions_stay_in_range (rs := sample_source) two_by_two_after_100
           two_by_two_after_100_reachable (1, 1)).
  vm_compute. reflexivity.
Defined.

(** X4, over the hundred steps of the two-by-two model. *)
Lemma run_invents_no_opinion_witness :
  wf two_by_two ∧
  (_state designated_leader = Some 16 ∨
   ∃ q c, _grid two_by_two !! q = Some c ∧ _state c = _state designated_leader).
Proof.
  split; [exact two_by_two_wf|].
  apply (run_invents_no_opinion (rs := sample_source) 100 two_by_two
           two_by_two_after_100 (1, 1) designated_leader two_by_two_wf).
  - vm_compute. reflexivity.
  - vm_compute. reflexivity.
Defined.

(** X5, at a corner of the two-by-two model after its first step. *)
Lemma committed_opinion_is_pending_witness :
  wf two_by_two ∧
  _state (cell_at two_by_two_after_1 (0, 0)) = _next_state (cell_at two_by_two_after_1 (0, 0)).
Proof.
  split; [exact two_by_two_wf|].
  destruct (committed_opinion_is_pending (rs := sample_source) two_by_two
              two_by_two_after_1 (0, 0) (cell_at two_by_two_after_1 (0, 0))
              two_by_two_wf two_by_two_first_step) as [Heq _].
  - vm_compute. reflexivity.
  - vm_compute. reflexivity.
  - exact Heq.
Defined.

(** X6, at the first step of the two-by-two model. *)
Lemma no_designation_between_hundreds_witness :
  (_steps two_by_two + 1) `mod` 100 ≠ 0 ∧
  _is_cult_leader <$> (_grid two_by_two_after_1 !! (0, 0))
  = _is_cult_leader <$> (_grid two_by_two !! (0, 0)).
Proof.
  assert ((_steps two_by_two + 1) `mod` 100 ≠ 0) as Hmod.
  { vm_compute. discriminate. }
  split; [exact Hmod|].
  exact (no_designation_between_hundreds (rs := sample_source) two_by_two
           two_by_two_after_1 (0, 0) two_by_two_first_step Hmod).
Defined.

(** X7, at the hundredth step of the two-by-two model. *)
Lemma one_designation_per_hundred_witness :
  (_steps two_by_two_after_99 + 1) `mod` 100 = 0 ∧
  ∃ pos c, _grid two_by_two_after_100 !! pos = Some c ∧ _is_cult_leader c = true.
Proof.
  assert ((_steps two_by_two_after_99 + 1) `mod` 100 = 0) as Hmod.
  { vm_compute. reflexivity. }
  split; [exact Hmod|].
  assert (step (rs := sample_source) two_by_two_after_99 = Ok two_by_two_after_100)
    as Hstep.
  { vm_compute. reflexivity. }
  destruct (one_designation_per_hundred (rs := sample_source) two_by_two_after_99
              two_by_two_after_100 Hstep Hmod) as (pos & c & _ & Hc & Hl & _).
  exists pos, c. split; [exact Hc | exact Hl].
Defined.

(** X8, at the two-by-two model as [__init__] fills it. *)
Lemma no_leader_before_step_100_witness :
  reachable (rs := sample_source) two_by_two ∧ 0 ≤ _steps two_by_two.
Proof.
  assert (reachable (rs := sample_source) two_by_two) as Hr.
  { apply reachable_populate. }
  split; [exact Hr|].
  destruct (no_leader_before_step_100 (rs := sample_source) two_by_two Hr) as [H0 _].
  exact H0.
Defined.

(** X9, on the two-by-two grid. *)
Lemma model_of_two_cells_never_raises_witness :
  ∃ s0, ColorPatches_init (rs := sample_source) 2 2 = Ok s0 ∧
        ∃ s, run (rs := sample_source) 10 s0 = Ok s.
Proof.
  destruct (model_of_two_cells_never_raises (rs := sample_source) 2 2)
    as (s0 & Hinit & Hrun); [lia|lia|left; lia|].
  exists s0. split; [exact Hinit|]. exact (Hrun 10%nat).
Defined.

(** X10, on the two-by-two model. *)
Lemma step_returns_iff_two_cells_witness :
  wf two_by_two ∧ ∃ s', step (rs := sample_source) two_by_two = Ok s'.
Proof.
  split; [exact two_by_two_wf|].
  assert (width two_by_two = 2) as Hw by (vm_compute; reflexivity).
  assert (height two_by_two = 2) as Hh by (vm_compute; reflexivity).
  destruct (step_returns_iff_two_cells (rs := sample_source) two_by_two two_by_two_wf)
    as [[_ Hret] _]; [rewrite Hw; lia | rewrite Hh; lia |].
  apply Hret. left. rewrite Hw. lia.
Defined.

(** X11, on the grid of width 0 and height 3. *)
Lemma empty_grid_raises_at_step_100_witness :
  run (rs := sample_source) 99 (with_steps 1 (empty_model 0 3)) = Raise IndexError.
Proof.
  destruct (empty_grid_raises_at_step_100 (rs := sample_source) 0 3)
    as (_ & _ & Hraise); [lia|lia|left; lia|].
  exact Hraise.
Defined.

(** X12, at the leader of the two-by-two model, one step on. *)
Lemma leaders_persist_witness :
  reachable (rs := sample_source) two_by_two_after_100 ∧
  _state designated_leader = Some 16.
Proof.
  split; [exact two_by_two_after_100_reachable|].
  destruct (leaders_persist (rs := sample_source) 1 two_by_two_after_100
              (get_Ok (run (rs := sample_source) 1 two_by_two_after_100)
                 two_by_two_after_100)
              (1, 1) designated_leader two_by_two_after_100_reachable)
    as [H16 _].
  - vm_compute. reflexivity.
  - vm_compute. reflexivity.
  - reflexivity.
  - exact H16.
Defined.

(** X13, on the three-by-three model whose cells all hold 5. *)
Lemma consensus_is_kept_witness :
  wf all_fives ∧ ∃ s', step (rs := constant_source) all_fives = Ok s'.
Proof.
  assert (wf all_fives) as Hwf.
  { apply (bool_decide_unpack _). vm_compute. reflexivity. }
  split; [exact Hwf|].
  assert (width all_fives = 3) as Hw by (vm_compute; reflexivity).
  assert (height all_fives = 3) as Hh by (vm_compute; reflexivity).
  assert (map_Forall (λ _ c, _state c = Some 5 ∧ _is_cult_leader c = false)
            (_grid all_fives)) as Hall.
  { apply (bool_decide_unpack _). vm_compute. reflexivity. }
  destruct (consensus_is_kept (rs := constant_source) all_fives 5 Hwf)
    as (s' & Hstep & _).
  - rewrite Hw. lia.
  - rewrite Hh. lia.
  - left. rewrite Hw. lia.
  - exact Hall.
  - exists s'. exact Hstep.
Defined.

(** X14, at the first step of the two-by-two model. *)
Lemma draws_of_a_step_without_leaders_witness :
  wf two_by_two ∧ no_leaders two_by_two ∧
  module_draws two_by_two_after_1 = (module_draws two_by_two + length (agents two_by_two))%nat.
Proof.
  assert (no_leaders two_by_two) as Hnl.
  { apply (bool_decide_unpack _). vm_compute. reflexivity. }
  split; [exact two_by_two_wf|]. split; [exact Hnl|].
  destruct (draws_of_a_step_without_leaders (rs := sample_source) two_by_two
              two_by_two_after_1 two_by_two_wf Hnl two_by_two_first_step) as [Hd _].
  exact Hd.
Defined.


(** X16, on the grid of width 1 and height 2. *)
Lemma unique_id_is_shared_witness :
  ∃ c0 c1, _grid (populate (rs := sample_source) 1 2) !! (0, 0) = Some c0 ∧
           _grid (populate (rs := sample_source) 1 2) !! (0, 1) = Some c1 ∧
           unique_id c0 = unique_id c1.
Proof.
  destruct (unique_id_is_shared (rs := sample_source) 1 2) as [_ Hshared].
  apply Hshared; lia.
Defined.


(** X19, at a corner of the two-by-two model, with a leader of another
    opinion in the place of the cell. *)
Lemma own_cell_plays_no_part_witness :
  wf two_by_two ∧
  ∃ next s1',
    determine_opinion (rs := sample_source) (0, 0) (mkColorCell 7 0 0 (Some 9) (Some 1) true)
      (with_grid (<[(0, 0) := mkColorCell 7 0 0 (Some 9) (Some 1) true]> (_grid two_by_two))
         two_by_two) = Ok s1' ∧
    _grid s1' !! (0, 0) = Some (mkColorCell 7 0 0 (Some 9) next true).
Proof.
  split; [exact two_by_two_wf|].
  destruct (own_cell_plays_no_part (rs := sample_source) two_by_two (0, 0)
              (cell_at two_by_two (0, 0)) (mkColorCell 7 0 0 (Some 9) (Some 1) true)
              (get_Ok (determine_opinion (rs := sample_source) (0, 0)
                         (cell_at two_by_two (0, 0)) two_by_two) two_by_two)
              two_by_two_wf) as (next & s1' & Hcall & _ & Hcell & _).
  - vm_compute. reflexivity.
  - reflexivity.
  - reflexivity.
  - vm_compute. reflexivity.
  - exists next, s1'. split; [exact Hcall | exact Hcell].
Defined.

(** X21, on the grid of a leader and a follower. *)
Lemma manipulate_random_cell_effect_witness :
  ∃ s', manipulate_random_cell (rs := sample_source) leader_and_follower = Ok s' ∧
        model_draws s' = S (model_draws leader_and_follower).
Proof.
  assert (manipulate_random_cell (rs := sample_source) leader_and_follower
          = Ok (get_Ok (manipulate_random_cell (rs := sample_source) leader_and_follower)
                  leader_and_follower)) as Hman.
  { vm_compute. reflexivity. }
  eexists. split; [exact Hman|].
  destruct (manipulate_random_cell_effect (rs := sample_source) _ _ Hman) as [Hm _].
  exact Hm.
Defined.

(** X22, at the two-by-two model after a hundred steps. *)
Lemma leaders_at_most_one_per_hundred_witness :
  reachable (rs := sample_source) two_by_two_after_100 ∧
  Z.of_nat (size (leaders two_by_two_after_100)) ≤ _steps two_by_two_after_100 `div` 100.
Proof.
  split; [exact two_by_two_after_100_reachable|].
  exact (leaders_at_most_one_per_hundred (rs := sample_source) two_by_two_after_100
           two_by_two_after_100_reachable).
Defined.
